(** * crate_adapter: the Prometheus remote read/write adapter for Crate.io

    A shallow embedding of [server.go] and the properties of its
    translation core: the label escaper, [queryToSQL],
    [responseToTimeseries], [runQuery] and [writesToCrateRequest].

    Go strings are byte sequences, modelled as [string] (a list of 8-bit
    [ascii]); [int64] and [uint64] are [Z] with the wrap-around of the
    conversions written out; Go maps are [gmap]s and the key set built in
    [writesToCrateRequest] is a [gset]. *)

From Stdlib Require Import ZArith Lia Ascii.
From Stdlib Require String.
From stdpp Require Import base option list strings pretty gmap sorting.

Local Open Scope Z_scope.
Set Warnings "-register-all".

(** ** Go values *)

(** A Go [error] value, by its message. [None] in an [option error] is the
    [nil] error. *)
Definition error : Type := string.

(** The double quote byte (0x22). *)
Definition dquote : ascii := "034"%char.
Definition DQ : string := String dquote EmptyString.

(** [strings.Join(elems, sep)]. *)
Fixpoint Join (elems : list string) (sep : string) : string :=
  match elems with
  | [] => EmptyString
  | [e] => e
  | e :: rest => e +:+ sep +:+ Join rest sep
  end.

(** [strings.Repeat(s, count)]. *)
Fixpoint Repeat (s : string) (count : nat) : string :=
  match count with
  | O => EmptyString
  | S n => s +:+ Repeat s n
  end.

(** [sort.Strings]: increasing byte-wise lexicographic order, the order of
    Go's [<] on strings. Any sorting function gives the same list. *)
Definition sortStrings (l : list string) : list string :=
  merge_sort String.le l.

(** Strictly increasing: sorted and without duplicates. *)
Definition string_lt : relation string := strict String.le.

(** ** 64-bit integers and floats *)

Definition two64 : Z := 2 ^ 64.
Definition two63 : Z := 2 ^ 63.
Definition MaxInt64 : Z := two63 - 1.
Definition MinInt64 : Z := - two63.
Definition MaxUint64 : Z := two64 - 1.

(** The conversion [int64(x)] of a [uint64] and [uint64(x)] of an [int64]:
    both keep the 64 bits and reinterpret them. *)
Definition int64_of_uint64 (x : Z) : Z :=
  if decide (x < two63) then x else x - two64.
Definition uint64_of_int64 (x : Z) : Z := x mod two64.

(** A [float64] is its IEEE-754 bit pattern; [math.Float64bits] and
    [math.Float64frombits] are the two directions of that reinterpretation,
    and no arithmetic is ever done on sample values. *)
Record float64 : Type := Float64frombits { Float64bits : Z }.

#[global] Instance float64_eq_dec : EqDecision float64.
Proof. solve_decision. Defined.

Definition float64_wf (f : float64) : Prop := 0 <= Float64bits f < two64.

Definition NaN : float64 := Float64frombits 0x7FF8000000000001.
Definition PosInf : float64 := Float64frombits 0x7FF0000000000000.
Definition NegInf : float64 := Float64frombits 0xFFF0000000000000.
(** The stale marker of Prometheus 2.0, a NaN with a payload. *)
Definition StaleNaN : float64 := Float64frombits 0x7FF0000000000002.

(** The value stored in the [valueRaw] column for a sample value
    (line 345), and the value read back from it (line 170). *)
Definition encodeValueRaw (v : float64) : Z := int64_of_uint64 (Float64bits v).
Definition decodeValueRaw (val : Z) : float64 := Float64frombits (uint64_of_int64 val).

(** ** The Prometheus remote protocol types

    Modelled from the spec: the declarations of package [remote]
    ([MatchType], [LabelMatcher], [Query], [LabelPair], [Sample],
    [TimeSeries], [WriteRequest]) are imported by [server.go]; section 3 of
    the specification gives their shape. *)

Inductive MatchType : Type :=
  | MatchType_EQUAL
  | MatchType_NOT_EQUAL
  | MatchType_REGEX_MATCH
  | MatchType_REGEX_NO_MATCH.

Module LabelMatcher.
Record t : Type := mk { Type_ : MatchType; Name : string; Value : string }.
End LabelMatcher.

Module Query.
Record t : Type := mk {
  StartTimestampMs : Z;
  EndTimestampMs : Z;
  Matchers : list LabelMatcher.t
}.
End Query.

Module LabelPair.
Record t : Type := mk { Name : string; Value : string }.
End LabelPair.

Module Sample.
Record t : Type := mk { Value : float64; TimestampMs : Z }.
End Sample.

Module TimeSeries.
Record t : Type := mk { Labels : list LabelPair.t; Samples : list Sample.t }.
End TimeSeries.

Module WriteRequest.
Record t : Type := mk { Timeseries : list TimeSeries.t }.
End WriteRequest.

#[global] Instance LabelPair_eq_dec : EqDecision LabelPair.t.
Proof. solve_decision. Defined.
#[global] Instance Sample_eq_dec : EqDecision Sample.t.
Proof. solve_decision. Defined.
#[global] Instance TimeSeries_eq_dec : EqDecision TimeSeries.t.
Proof. solve_decision. Defined.

(** ** Escaping for strings for Crate.io SQL *)

(** The pairs given to [strings.NewReplacer] on line 84. Every old string
    is a single byte, so the replacer works byte by byte. *)
Definition escaperPairs : list (ascii * string) :=
  [ ("\"%char, "\\");
    (dquote, "\" +:+ DQ);
    ("'"%char, "\'") ].

Fixpoint replacementOf (pairs : list (ascii * string)) (c : ascii) : string :=
  match pairs with
  | [] => String c EmptyString
  | (old, new) :: rest => if decide (c = old) then new else replacementOf rest c
  end.

(** [escaper.Replace]. *)
Fixpoint escaper_Replace (s : string) : string :=
  match s with
  | EmptyString => EmptyString
  | String c rest => replacementOf escaperPairs c +:+ escaper_Replace rest
  end.

(** Escape a labelname for use in SQL as a column name. *)
Definition escapeLabelName (s : string) : string :=
  DQ +:+ "l" +:+ escaper_Replace s +:+ DQ.

(** Escape a labelvalue for use in SQL as a string value. *)
Definition escapeLabelValue (s : string) : string :=
  "'" +:+ escaper_Replace s +:+ "'".

(** The reading of a quoted literal that the escaper is written for: the
    literal opens with the quote byte [q], a backslash makes the next byte
    literal, and the first unescaped [q] closes it and must end the text.
    [None] when the text is not one such literal. *)
Fixpoint readEscaped (q : ascii) (s : string) : option string :=
  match s with
  | EmptyString => None
  | String c rest =>
      if decide (c = q) then
        match rest with EmptyString => Some EmptyString | _ => None end
      else if decide (c = "\"%char) then
        match rest with
        | EmptyString => None
        | String d rest' => String d <$> readEscaped q rest'
        end
      else String c <$> readEscaped q rest
  end.

Definition readLiteral (q : ascii) (s : string) : option string :=
  match s with
  | String c rest => if decide (c = q) then readEscaped q rest else None
  | EmptyString => None
  end.

(** A column identifier is a double-quoted literal whose text starts with
    the marker byte [l]. *)
Definition readLabelColumn (s : string) : option string :=
  match readLiteral dquote s with
  | Some (String "l" name) => Some name
  | _ => None
  end.

Definition readStringLiteral (s : string) : option string :=
  readLiteral "'"%char s.

(** ** Control flow and panics *)

(** The state of a loop whose body may [return] an error early. *)
Inductive flow (A : Type) : Type :=
  | Continue (a : A)
  | Return (err : error).
Arguments Continue {A} a.
Arguments Return {A} err.

(** A Go computation either completes with a value or panics at run time
    (an index out of range, a failed type assertion). *)
Inductive outcome (A : Type) : Type :=
  | Done (a : A)
  | Panic (msg : string).
Arguments Done {A} a.
Arguments Panic {A} msg.

Definition bindOutcome {A B : Type} (x : outcome A) (k : A -> outcome B) : outcome B :=
  match x with
  | Done a => k a
  | Panic msg => Panic msg
  end.

(** ** JSON cells and [json.Number] *)

(** The dynamic type of a cell decoded into [interface{}] by a decoder with
    [UseNumber]: [nil], [bool], [json.Number] (the literal text), [string],
    an array or an object. *)
Inductive JSONValue : Type :=
  | JNull
  | JBool (b : bool)
  | JNumber (n : string)
  | JString (s : string)
  | JArray (elems : list JSONValue)
  | JObject (fields : list (string * JSONValue)).

Definition isNil (value : JSONValue) : bool :=
  match value with JNull => true | _ => false end.

Inductive NumError : Type := ErrSyntax | ErrRange.

Definition digitOf (c : ascii) : option Z :=
  let d := Z.of_N (N_of_ascii c) in
  if decide (48 <= d <= 57) then Some (d - 48) else None.

(** [strconv.ParseUint(s, 10, 64)] after its emptiness check: the digit
    loop, with [cutoff = maxUint64/10 + 1]. *)
Fixpoint parseUintLoop (s : string) (n : Z) : Z * option NumError :=
  match s with
  | EmptyString => (n, None)
  | String d rest =>
      match digitOf d with
      | None => (0, Some ErrSyntax)
      | Some v =>
          if decide (n >= MaxUint64 / 10 + 1) then (MaxUint64, Some ErrRange)
          else
            let n := (n * 10) mod two64 in
            let n1 := (n + v) mod two64 in
            if decide (n1 < n \/ n1 > MaxUint64) then (MaxUint64, Some ErrRange)
            else parseUintLoop rest n1
      end
  end.

Definition ParseUint (s : string) : Z * option NumError :=
  match s with
  | EmptyString => (0, Some ErrSyntax)
  | _ => parseUintLoop s 0
  end.

(** [int64] negation wraps around. *)
Definition wrapInt64 (z : Z) : Z := (z + two63) mod two64 - two63.

(** [strconv.ParseInt(s, 10, 64)], which is what [json.Number.Int64]
    calls on the literal. *)
Definition ParseInt (s : string) : Z * option NumError :=
  match s with
  | EmptyString => (0, Some ErrSyntax)
  | String c rest =>
      let '(neg, s1) :=
        if decide (c = "+"%char) then (false, rest)
        else if decide (c = "-"%char) then (true, rest)
        else (false, s) in
      let '(un, err) := ParseUint s1 in
      match err with
      | Some ErrSyntax => (0, Some ErrSyntax)
      | _ =>
          if decide (neg = false /\ un >= two63) then (MaxInt64, Some ErrRange)
          else if decide (neg = true /\ un > two63) then (MinInt64, Some ErrRange)
          else
            let n := int64_of_uint64 un in
            (if neg then wrapInt64 (- n) else n, None)
      end
  end.

Definition Number_Int64 (n : string) : Z * option NumError := ParseInt n.

(** ** Requests and responses of the store *)

(** A bulk argument, an [interface{}] that holds [nil], a [string] or an
    [int64]. *)
Inductive Arg : Type :=
  | ArgNil
  | ArgString (s : string)
  | ArgInt64 (z : Z).

#[global] Instance Arg_eq_dec : EqDecision Arg.
Proof. solve_decision. Defined.

Record crateRequest : Type := mkRequest {
  Stmt : string;
  BulkArgs : list (list Arg)
}.

Record crateResponse : Type := mkResponse {
  Cols : list string;
  Rows : list (list JSONValue)
}.

Record httpResponse : Type := mkHttpResponse {
  StatusCode : Z;
  Body : string
}.

Definition StatusOK : Z := 200.

(** A [model.Metric], the label set of one row. *)
Abbreviation Metric := (gmap string string).

(** The locals of one iteration of the row loop of
    [responseToTimeseries]. *)
Record rowVars : Type := mkRowVars {
  metric : Metric;
  v : float64;
  t : Z
}.

Definition zeroSeries : TimeSeries.t := TimeSeries.mk [] [].

(** ** What a handler does to its [http.ResponseWriter] *)

(** The calls a handler makes on [w], in order: [http.Error(w, msg, code)],
    [w.Header().Set(key, value)] and [w.Write(data)]. A handler that makes
    no call leaves the reply to the server: status 200 and an empty body. *)
Inductive event : Type :=
  | EvError (msg : string) (code : Z)
  | EvSetHeader (key value : string)
  | EvWrite (data : string).

Definition StatusBadRequest : Z := 400.
Definition StatusInternalServerError : Z := 500.

(** ** Measures and views used in the statements *)

(** The number of bytes of a string that the escaper replaces. *)
Fixpoint countSpecial (s : string) : nat :=
  match s with
  | EmptyString => 0%nat
  | String c rest =>
      ((if decide (c = "\"%char \/ c = dquote \/ c = "'"%char) then 1 else 0)
       + countSpecial rest)%nat
  end.

(** The quoted identifiers of the three fixed columns, as line 324 writes
    them. *)
Definition fixedColumns : list string :=
  [DQ +:+ "value" +:+ DQ; DQ +:+ "valueRaw" +:+ DQ; DQ +:+ "timestamp" +:+ DQ].

(** A bulk argument as a cell of a result table: [nil] is null, a string
    is a string, an int64 is the number with its decimal text. *)
Definition argCell (a : Arg) : JSONValue :=
  match a with
  | ArgNil => JNull
  | ArgString s => JString s
  | ArgInt64 z => JNumber (pretty z)
  end.

(** The column names of the rows of a bulk insert with the label columns
    [labels]: the text of the identifiers of the statement. *)
Definition insertColumns (labels : list string) : list string :=
  (String "l" <$> labels) ++ ["value"; "valueRaw"; "timestamp"].

(** A column whose cells the cell loop does not look at: its name is not
    empty, does not start with [l], and is neither [timestamp] nor
    [valueRaw]. *)
Definition unreadColumn (column : string) : bool :=
  match column with
  | EmptyString => false
  | String c0 _ =>
      negb (bool_decide (c0 = "l"%char))
      && negb (bool_decide (column = "timestamp"))
      && negb (bool_decide (column = "valueRaw"))
  end.

(** Two rows, from index [i] on, with the same cells except under unread
    columns. *)
Fixpoint rowsAgree (cols : list string) (i : nat) (row1 row2 : list JSONValue) : Prop :=
  match row1, row2 with
  | [], [] => True
  | value1 :: rest1, value2 :: rest2 =>
      (value1 = value2 \/
       exists column, cols !! i = Some column /\ unreadColumn column = true) /\
      rowsAgree cols (S i) rest1 rest2
  | _, _ => False
  end.

(** ** A sample environment

    Concrete stand-ins for the imported functions, used to run the adapter
    on examples. *)

(** [regexp.MatchString] as the adapter calls it, on the empty subject:
    the patterns below match it, the unbalanced group is rejected with the
    error of Go's parser, and the other patterns of the examples do not
    match it. *)
Definition sampleMatchString (pattern s : string) : bool * option error :=
  if decide (pattern = "^(?:()$") then
    (false, Some "error parsing regexp: missing closing ): `^(?:()$`")
  else if decide (s = EmptyString) then
    (bool_decide (pattern ∈ ["^(?:)$"; "^(?:.*)$"; "^(?:a|)$"]), None)
  else (false, None).

(** [model.Metric.String] on label sets without a [__name__] label and
    with values that need no quoting: the sorted [name="value"] pairs in
    braces. *)
Definition sampleMetricString (m : Metric) : string :=
  "{" +:+ Join ((fun k => k +:+ "=" +:+ DQ +:+ default EmptyString (m !! k) +:+ DQ)
                  <$> sortStrings ((map_to_list m).*1)) ", " +:+ "}".

(** [fmt.Sprintf("%f", v)] on the values of the examples. *)
Definition sampleFormatFloat (f : float64) : string :=
  if decide (f = NaN) then "NaN"
  else if decide (f = PosInf) then "+Inf"
  else if decide (f = NegInf) then "-Inf"
  else if decide (f = Float64frombits 0x3FF0000000000000) then "1.000000"
  else if decide (f = Float64frombits 0x4000000000000000) then "2.000000"
  else "0.000000".

(** Stand-ins for [json.Marshal] (the statement alone), for a store that
    answers every request with the given status, and for the decoder. *)
Definition sampleMarshal (r : crateRequest) : string * option error := (Stmt r, None).
Definition samplePost (status : Z) (url body : string) : httpResponse * option error :=
  (mkHttpResponse status "SQLParseException", None).
Definition sampleDecode (body : string) : crateResponse * option error :=
  (mkResponse [] [], None).

(** Example inputs. *)
Definition exampleMatchers : list LabelMatcher.t :=
  [ LabelMatcher.mk MatchType_EQUAL "__name__" "up";
    LabelMatcher.mk MatchType_NOT_EQUAL "env" EmptyString;
    LabelMatcher.mk MatchType_REGEX_MATCH "job" ".*";
    LabelMatcher.mk MatchType_REGEX_NO_MATCH "instance" "up.+" ].

Definition exampleQuery : Query.t := Query.mk 1000 2000 exampleMatchers.

Definition invalidQuery : Query.t :=
  Query.mk 1000 2000
    [ LabelMatcher.mk MatchType_EQUAL "__name__" "up";
      LabelMatcher.mk MatchType_REGEX_MATCH "job" "(" ].

(** Two rows with the label set [{a="1"}] and one with [{b="2"}]. *)
Definition exampleTable : crateResponse :=
  mkResponse ["la"; "lb"; "timestamp"; "valueRaw"; "value"]
    [ [JString "1"; JNull; JNumber "1000"; JNumber "4607182418800017408"; JNumber "1.0"];
      [JNull; JString "2"; JNumber "1500"; JNumber "-4503599627370496"; JNull];
      [JString "1"; JNull; JNumber "2000"; JNumber "9221120237041090561"; JNull] ].

Definition exampleVars : list rowVars :=
  [ mkRowVars {["a" := "1"]} (Float64frombits 4607182418800017408) 1000;
    mkRowVars {["b" := "2"]} NegInf 1500;
    mkRowVars {["a" := "1"]} NaN 2000 ].

(** A timestamp that is a number but not an integer; a row without
    cells. *)
Definition fractionalTable : crateResponse :=
  mkResponse ["timestamp"; "valueRaw"]
    [ [JNumber "1.5"; JNumber "4607182418800017408"] ].

Definition shortRowTable : crateResponse :=
  mkResponse ["timestamp"; "valueRaw"] [ [] ].

(** The batch of section 8 of the specification, and one without labels. *)
Definition exampleBatch : WriteRequest.t :=
  WriteRequest.mk
    [ TimeSeries.mk [LabelPair.mk "a" "1"] [Sample.mk NaN 5; Sample.mk PosInf 6];
      TimeSeries.mk [LabelPair.mk "b" "2"] [Sample.mk NegInf 7] ].

Definition unlabelledBatch : WriteRequest.t :=
  WriteRequest.mk [ TimeSeries.mk [] [Sample.mk NaN 5; Sample.mk PosInf 6] ].

(** Stand-ins for the codecs of the handlers: compression and the
    protobuf encoding are left as the identity on a fixed request. *)
Definition sampleSnappyDecode (compressed : string) : string * option error :=
  (compressed, None).
Definition sampleSnappyEncode (data : string) : string := data.
Definition sampleUnmarshalRead (queries : list Query.t) (buf : string)
  : list Query.t * option error := (queries, None).
Definition sampleUnmarshalWrite (req : WriteRequest.t) (buf : string)
  : WriteRequest.t * option error := (req, None).
Definition sampleMarshalResponse (timeseries : list TimeSeries.t)
  : string * option error := ("response", None).
Definition sampleWrite (data : string) : option error := None.

(** The batch of [exampleBatch] with its series in the other order. *)
Definition swappedBatch : WriteRequest.t :=
  WriteRequest.mk
    [ TimeSeries.mk [LabelPair.mk "b" "2"] [Sample.mk NegInf 7];
      TimeSeries.mk [LabelPair.mk "a" "1"] [Sample.mk NaN 5; Sample.mk PosInf 6] ].

(** [exampleTable] with other cells in its [value] column. *)
Definition exampleTable' : crateResponse :=
  mkResponse ["la"; "lb"; "timestamp"; "valueRaw"; "value"]
    [ [JString "1"; JNull; JNumber "1000"; JNumber "4607182418800017408"; JString "x"];
      [JNull; JString "2"; JNumber "1500"; JNumber "-4503599627370496"; JBool true];
      [JString "1"; JNull; JNumber "2000"; JNumber "9221120237041090561"; JNumber "7"] ].

(** A regex engine that rejects every pattern, and a query without regex
    matchers. *)
Definition rejectingMatchString (pattern s : string) : bool * option error :=
  (false, Some "error parsing regexp").

Definition equalityQuery : Query.t :=
  Query.mk 1000 2000
    [ LabelMatcher.mk MatchType_EQUAL "__name__" "up";
      LabelMatcher.mk MatchType_NOT_EQUAL "env" EmptyString ].

(** The regex engine on a value with a stray closing parenthesis: Go's
    parser rejects the bare value [a)(b]; wrapped in the anchors it reads
    [^(?:a)(b)$], which is well formed and matches [ab] only. Other
    patterns are answered as by [sampleMatchString]. *)
Definition parenMatchString (pattern s : string) : bool * option error :=
  if decide (pattern = "a)(b") then
    (false, Some "error parsing regexp: unexpected ): `a)(b`")
  else if decide (pattern = "^(?:a)(b)$") then (bool_decide (s = "ab"), None)
  else sampleMatchString pattern s.

Definition strayParenQuery : Query.t :=
  Query.mk 1000 2000 [ LabelMatcher.mk MatchType_REGEX_MATCH "job" "a)(b" ].

Section Adapter.

(** The imported functions the adapter calls. *)

(** [regexp.MatchString(pattern, s)]. *)
Variable MatchString : string -> string -> bool * option error.
(** [model.Metric.String], the key of a label set. *)
Variable metricString : Metric -> string.
(** [fmt.Sprintf("%f", v)]. *)
Variable formatFloat : float64 -> string.
(** [json.Marshal] of a request, [ca.client.Post(ca.url, ...)] and the
    decoding of a response body with [UseNumber]. *)
Variable json_Marshal : crateRequest -> string * option error.
Variable client_Post : string -> string -> httpResponse * option error.
Variable json_Decode : string -> crateResponse * option error.
(** [snappy.Decode(nil, compressed)] and [snappy.Encode(nil, data)]. *)
Variable snappy_Decode : string -> string * option error.
Variable snappy_Encode : string -> string.
(** [proto.Unmarshal] into a [remote.ReadRequest] (its [Queries]) and into
    a [remote.WriteRequest]; [proto.Marshal] of the [remote.ReadResponse]
    with one result that holds the given series. *)
Variable unmarshalReadRequest : string -> list Query.t * option error.
Variable unmarshalWriteRequest : string -> WriteRequest.t * option error.
Variable marshalReadResponse : list TimeSeries.t -> string * option error.
(** The error of [w.Write(data)]. *)
Variable w_Write : string -> option error.

(** *** [queryToSQL] *)

(** The anchored pattern of a regex matcher (lines 126 and 138). *)
Definition anchored (value : string) : string := "^(?:" +:+ value +:+ ")$".

(** One iteration of the loop over [q.Matchers] (lines 110-148):
    [selectors] grows by one predicate, or the function returns the error
    of the regex engine. *)
Definition matcherStep (selectors : list string) (m : LabelMatcher.t)
  : flow (list string) :=
  match LabelMatcher.Type_ m with
  | MatchType_EQUAL =>
      if decide (LabelMatcher.Value m = EmptyString) then
        Continue (selectors ++
          ["(" +:+ escapeLabelName (LabelMatcher.Name m) +:+ " IS NULL)"])
      else
        Continue (selectors ++
          ["(" +:+ escapeLabelName (LabelMatcher.Name m) +:+ " = "
               +:+ escapeLabelValue (LabelMatcher.Value m) +:+ ")"])
  | MatchType_NOT_EQUAL =>
      if decide (LabelMatcher.Value m = EmptyString) then
        Continue (selectors ++
          ["(" +:+ escapeLabelName (LabelMatcher.Name m) +:+ " IS NOT NULL)"])
      else
        Continue (selectors ++
          ["(" +:+ escapeLabelName (LabelMatcher.Name m) +:+ " != "
               +:+ escapeLabelValue (LabelMatcher.Value m) +:+ ")"])
  | MatchType_REGEX_MATCH =>
      let re := "^(?:" +:+ LabelMatcher.Value m +:+ ")$" in
      let '(matchesEmpty, err) := MatchString re EmptyString in
      match err with
      | Some e => Return e
      | None =>
          if matchesEmpty then
            Continue (selectors ++
              ["(" +:+ escapeLabelName (LabelMatcher.Name m) +:+ " ~ "
                   +:+ escapeLabelValue re +:+ " OR "
                   +:+ escapeLabelName (LabelMatcher.Name m) +:+ " IS NULL)"])
          else
            Continue (selectors ++
              ["(" +:+ escapeLabelName (LabelMatcher.Name m) +:+ " ~ "
                   +:+ escapeLabelValue re +:+ ")"])
      end
  | MatchType_REGEX_NO_MATCH =>
      let re := "^(?:" +:+ LabelMatcher.Value m +:+ ")$" in
      let '(matchesEmpty, err) := MatchString re EmptyString in
      match err with
      | Some e => Return e
      | None =>
          if matchesEmpty then
            Continue (selectors ++
              ["(" +:+ escapeLabelName (LabelMatcher.Name m) +:+ " !~ "
                   +:+ escapeLabelValue re +:+ ")"])
          else
            Continue (selectors ++
              ["(" +:+ escapeLabelName (LabelMatcher.Name m) +:+ " !~ "
                   +:+ escapeLabelValue re +:+ " OR "
                   +:+ escapeLabelName (LabelMatcher.Name m) +:+ " IS NULL)"])
      end
  end.

(** The loop of lines 109-149. *)
Fixpoint matcherLoop (ms : list LabelMatcher.t) (selectors : list string)
  : flow (list string) :=
  match ms with
  | [] => Continue selectors
  | m :: rest =>
      match matcherStep selectors m with
      | Continue selectors' => matcherLoop rest selectors'
      | Return e => Return e
      end
  end.

(** Convert a read query into a Crate SQL query. *)
Definition queryToSQL (q : Query.t) : string * option error :=
  match matcherLoop (Query.Matchers q) [] with
  | Return err => (EmptyString, Some err)
  | Continue selectors =>
      let selectors := selectors ++
        ["(timestamp <= " +:+ pretty (Query.EndTimestampMs q) +:+ ")"] in
      let selectors := selectors ++
        ["(timestamp >= " +:+ pretty (Query.StartTimestampMs q) +:+ ")"] in
      ("SELECT * from metrics WHERE " +:+ Join selectors " AND "
         +:+ " ORDER BY timestamp", None)
  end.

(** The predicate table of the matcher translator, one row per match
    type and one case per column of the table, as the specification
    words it. [col] is the escaped column identifier, ['value'] the
    escaped literal. *)
Inductive TablePredicate : LabelMatcher.t -> string -> Prop :=
  | TP_equal_empty name :
      TablePredicate (LabelMatcher.mk MatchType_EQUAL name EmptyString)
        ("(" +:+ escapeLabelName name +:+ " IS NULL)")
  | TP_equal name value :
      value <> EmptyString ->
      TablePredicate (LabelMatcher.mk MatchType_EQUAL name value)
        ("(" +:+ escapeLabelName name +:+ " = " +:+ escapeLabelValue value +:+ ")")
  | TP_not_equal_empty name :
      TablePredicate (LabelMatcher.mk MatchType_NOT_EQUAL name EmptyString)
        ("(" +:+ escapeLabelName name +:+ " IS NOT NULL)")
  | TP_not_equal name value :
      value <> EmptyString ->
      TablePredicate (LabelMatcher.mk MatchType_NOT_EQUAL name value)
        ("(" +:+ escapeLabelName name +:+ " != " +:+ escapeLabelValue value +:+ ")")
  | TP_regex_match_empty name value :
      MatchString (anchored value) EmptyString = (true, None) ->
      TablePredicate (LabelMatcher.mk MatchType_REGEX_MATCH name value)
        ("(" +:+ escapeLabelName name +:+ " ~ " +:+ escapeLabelValue (anchored value)
             +:+ " OR " +:+ escapeLabelName name +:+ " IS NULL)")
  | TP_regex_match name value :
      MatchString (anchored value) EmptyString = (false, None) ->
      TablePredicate (LabelMatcher.mk MatchType_REGEX_MATCH name value)
        ("(" +:+ escapeLabelName name +:+ " ~ " +:+ escapeLabelValue (anchored value) +:+ ")")
  | TP_regex_no_match_empty name value :
      MatchString (anchored value) EmptyString = (true, None) ->
      TablePredicate (LabelMatcher.mk MatchType_REGEX_NO_MATCH name value)
        ("(" +:+ escapeLabelName name +:+ " !~ " +:+ escapeLabelValue (anchored value) +:+ ")")
  | TP_regex_no_match name value :
      MatchString (anchored value) EmptyString = (false, None) ->
      TablePredicate (LabelMatcher.mk MatchType_REGEX_NO_MATCH name value)
        ("(" +:+ escapeLabelName name +:+ " !~ " +:+ escapeLabelValue (anchored value)
             +:+ " OR " +:+ escapeLabelName name +:+ " IS NULL)").

(** A regex matcher whose anchored pattern the regex engine rejects. *)
Definition isRegexType (ty : MatchType) : bool :=
  match ty with
  | MatchType_REGEX_MATCH | MatchType_REGEX_NO_MATCH => true
  | _ => false
  end.

Definition regexError (m : LabelMatcher.t) : option error :=
  if isRegexType (LabelMatcher.Type_ m)
  then snd (MatchString (anchored (LabelMatcher.Value m)) EmptyString)
  else None.

(** The request [runQuery] builds from the statement (line 213): no
    [BulkArgs]. *)
Definition selectRequest (query : string) : crateRequest :=
  {| Stmt := query; BulkArgs := [] |}.

(** *** [responseToTimeseries] *)

(** The body of the loop over the cells of a row (lines 163-171), at
    index [i] with cell [value]. Indexing [data.Cols] out of range,
    indexing an empty column name and a failed type assertion panic; the
    error of [Int64] is discarded. *)
Definition cellStep (cols : list string) (vars : rowVars) (i : nat)
  (value : JSONValue) : outcome rowVars :=
  match cols !! i with
  | None => Panic "index out of range"
  | Some column =>
      match column with
      | EmptyString => Panic "index out of range"
      | String c0 name =>
          if bool_decide (c0 = "l"%char) && negb (isNil value) then
            match value with
            | JString s =>
                Done (mkRowVars (<[name := s]> (metric vars)) (v vars) (t vars))
            | _ => Panic "interface conversion: interface {} is not string"
            end
          else if decide (column = "timestamp") then
            match value with
            | JNumber n =>
                Done (mkRowVars (metric vars) (v vars) (fst (Number_Int64 n)))
            | _ => Panic "interface conversion: interface {} is not json.Number"
            end
          else if decide (column = "valueRaw") then
            match value with
            | JNumber n =>
                let val := fst (Number_Int64 n) in
                Done (mkRowVars (metric vars)
                        (Float64frombits (uint64_of_int64 val)) (t vars))
            | _ => Panic "interface conversion: interface {} is not json.Number"
            end
          else Done vars
      end
  end.

(** [for i, value := range row], from index [i] on. *)
Fixpoint cellLoop (cols : list string) (i : nat) (row : list JSONValue)
  (vars : rowVars) : outcome rowVars :=
  match row with
  | [] => Done vars
  | value :: rest =>
      bindOutcome (cellStep cols vars i value) (cellLoop cols (S i) rest)
  end.

(** The locals at the start of a row: an empty metric, [v] and [t] at
    their zero values. *)
Definition zeroVars : rowVars := mkRowVars ∅ (Float64frombits 0) 0.

Definition decodeRow (cols : list string) (row : list JSONValue) : outcome rowVars :=
  cellLoop cols 0 row zeroVars.

(** The labels of a new series (lines 176-183): the names of the metric,
    sorted. *)
Definition seriesLabels (m : Metric) : list LabelPair.t :=
  let labelnames := sortStrings ((map_to_list m).*1) in
  (fun k => LabelPair.mk k (default EmptyString (m !! k))) <$> labelnames.

(** Lines 173-186 for one decoded row. The map holds pointers: the
    sample appended to [ts.Samples] is seen through the map, so the
    entry is written back with the longer list. *)
Definition addSample (timeseries : gmap string TimeSeries.t) (vars : rowVars)
  : gmap string TimeSeries.t :=
  let key := metricString (metric vars) in
  let ts :=
    match timeseries !! key with
    | Some ts => ts
    | None => TimeSeries.mk (seriesLabels (metric vars)) []
    end in
  <[key := TimeSeries.mk (TimeSeries.Labels ts)
             (TimeSeries.Samples ts ++ [Sample.mk (v vars) (t vars)])]> timeseries.

(** The loop over [data.Rows] (lines 158-187). *)
Fixpoint rowLoop (cols : list string) (rows : list (list JSONValue))
  (timeseries : gmap string TimeSeries.t) : outcome (gmap string TimeSeries.t) :=
  match rows with
  | [] => Done timeseries
  | row :: rest =>
      bindOutcome (decodeRow cols row)
        (fun vars => rowLoop cols rest (addSample timeseries vars))
  end.

(** Lines 189-199: the series in the order of their sorted keys. *)
Definition sortedSeries (timeseries : gmap string TimeSeries.t) : list TimeSeries.t :=
  let names := sortStrings ((map_to_list timeseries).*1) in
  (fun name => default zeroSeries (timeseries !! name)) <$> names.

(** The observation of the sample count on line 196 has no part in the
    result and is left out. *)
Definition responseToTimeseries (data : crateResponse) : outcome (list TimeSeries.t) :=
  bindOutcome (rowLoop (Cols data) (Rows data) ∅)
    (fun timeseries => Done (sortedSeries timeseries)).

(** The key under which a returned series is held, recomputed from its
    labels. *)
Definition labelsMetric (labels : list LabelPair.t) : Metric :=
  list_to_map ((fun l => (LabelPair.Name l, LabelPair.Value l)) <$> labels).

Definition seriesKey (ts : TimeSeries.t) : string :=
  metricString (labelsMetric (TimeSeries.Labels ts)).

Definition sampleOf (vars : rowVars) : Sample.t := Sample.mk (v vars) (t vars).

(** The rows of a table as the cell loop leaves them, one [rowVars] per
    row, when no row panics. *)
Fixpoint decodeRows (cols : list string) (rows : list (list JSONValue))
  : outcome (list rowVars) :=
  match rows with
  | [] => Done []
  | row :: rest =>
      bindOutcome (decodeRow cols row)
        (fun vars => bindOutcome (decodeRows cols rest)
                       (fun vs => Done (vars :: vs)))
  end.

Definition rowKey (vars : rowVars) : string := metricString (metric vars).

(** The samples of the rows whose label set has the key [key], in row
    order. *)
Definition samplesOf (key : string) (vs : list rowVars) : list Sample.t :=
  sampleOf <$> filter (fun vars => rowKey vars = key) vs.

(** The number of samples held by a list of series. *)
Definition countSamples (l : list TimeSeries.t) : nat :=
  sum_list_with (fun ts => length (TimeSeries.Samples ts)) l.

(** The cells on which the cell loop panics: a cell beyond the column
    list, a cell under an empty column name, a cell of a label column
    that is neither null nor a string, a cell of the [timestamp] or
    [valueRaw] column that is not a number. *)
Inductive PanicCell (cols : list string) (i : nat) (value : JSONValue) : Prop :=
  | PC_no_column :
      cols !! i = None -> PanicCell cols i value
  | PC_empty_column :
      cols !! i = Some EmptyString -> PanicCell cols i value
  | PC_label_not_string name :
      cols !! i = Some (String "l" name) ->
      isNil value = false ->
      (forall s, value <> JString s) ->
      PanicCell cols i value
  | PC_not_number column :
      cols !! i = Some column ->
      column = "timestamp" \/ column = "valueRaw" ->
      (forall n, value <> JNumber n) ->
      PanicCell cols i value.

Definition PanicRow (cols : list string) (row : list JSONValue) : Prop :=
  exists i value, row !! i = Some value /\ PanicCell cols i value.

(** A table with a malformed cell or row in the sense of the error
    taxonomy: a cell of the [timestamp] or [valueRaw] column that is not
    the decimal literal of an int64, or a row that does not have one
    cell per column. *)
Definition isInt64Literal (value : JSONValue) : bool :=
  match value with
  | JNumber n => bool_decide (snd (Number_Int64 n) = None)
  | _ => false
  end.

Definition MalformedRow (cols : list string) (row : list JSONValue) : Prop :=
  length row <> length cols \/
  exists i column value,
    cols !! i = Some column /\ row !! i = Some value /\
    (column = "timestamp" \/ column = "valueRaw") /\
    isInt64Literal value = false.

Definition MalformedTable (data : crateResponse) : Prop :=
  Exists (MalformedRow (Cols data)) (Rows data).

Definition isPanic {A : Type} (x : outcome A) : Prop :=
  match x with Panic _ => True | Done _ => False end.

(** *** [runQuery] *)

(** Lines 207-241, with the [err] variable of the function threaded as the
    code reassigns it. The log line, the timer and the error counter have no
    part in the result and are left out. *)
Definition runQuery (url : string) (q : Query.t)
  : outcome (list TimeSeries.t * option error) :=
  let '(query, err) := queryToSQL q in
  match err with
  | Some _ => Done ([], err)
  | None =>
      let request := selectRequest query in
      let '(jsonRequest, err) := json_Marshal request in
      match err with
      | Some _ => Done ([], err)
      | None =>
          let '(result, err) := client_Post url jsonRequest in
          match err with
          | Some _ => Done ([], err)
          | None =>
              if decide (StatusCode result <> StatusOK) then Done ([], err)
              else
                let '(data, err) := json_Decode (Body result) in
                match err with
                | Some _ => Done ([], err)
                | None =>
                    bindOutcome (responseToTimeseries data)
                      (fun timeseries => Done (timeseries, None))
                end
          end
      end
  end.

(** *** [writesToCrateRequest] *)

(** Lines 302-307: the set of every label name used. *)
Definition labelsUsedOf (req : WriteRequest.t) : gset string :=
  foldl (fun labelsUsed ts =>
           foldl (fun labelsUsed l => {[LabelPair.Name l]} ∪ labelsUsed)
                 labelsUsed (TimeSeries.Labels ts))
        ∅ (WriteRequest.Timeseries req).

(** Lines 327-330: the labels of a series as a map; a later pair with
    the same name overwrites an earlier one. *)
Definition seriesMetric (ts : TimeSeries.t) : Metric :=
  foldl (fun m l => <[LabelPair.Name l := LabelPair.Value l]> m)
        ∅ (TimeSeries.Labels ts).

(** Lines 333-346: the argument row of one sample. A missing key reads
    as the empty string. *)
Definition sampleArgs (labels : list string) (m : Metric) (s : Sample.t) : list Arg :=
  let args :=
    (fun l => if decide (default EmptyString (m !! l) = EmptyString)
              then ArgNil else ArgString (default EmptyString (m !! l)))
      <$> labels in
  let args := args ++ [ArgString (formatFloat (Sample.Value s))] in
  let args := args ++ [ArgInt64 (int64_of_uint64 (Float64bits (Sample.Value s)))] in
  args ++ [ArgInt64 (Sample.TimestampMs s)].

Definition seriesArgs (labels : list string) (ts : TimeSeries.t) : list (list Arg) :=
  sampleArgs labels (seriesMetric ts) <$> TimeSeries.Samples ts.

(** Lines 300-353; the statement is the [Sprintf] of line 324 written as
    a concatenation. *)
Definition writesToCrateRequest (req : WriteRequest.t) : crateRequest :=
  let labelsUsed := labelsUsedOf req in
  let labels := sortStrings (elements labelsUsed) in
  let escapedLabels := escapeLabelName <$> labels in
  let placeholders := Repeat "?, " (length labels) in
  let columns := Join escapedLabels ", " in
  {| Stmt := "INSERT INTO metrics (" +:+ columns +:+ ", " +:+ DQ +:+ "value" +:+ DQ
               +:+ ", " +:+ DQ +:+ "valueRaw" +:+ DQ +:+ ", " +:+ DQ +:+ "timestamp"
               +:+ DQ +:+ ") VALUES (" +:+ placeholders +:+ " ?, ?, ?)";
     BulkArgs :=
       foldl (fun bulkArgs ts => bulkArgs ++ seriesArgs labels ts)
             [] (WriteRequest.Timeseries req) |}.

(** The value the specification gives a label in a series: that of the
    last pair with the name, if there is one. *)
Fixpoint labelValue (labels : list LabelPair.t) (name : string) : option string :=
  match labels with
  | [] => None
  | l :: rest =>
      match labelValue rest name with
      | Some value => Some value
      | None => if decide (LabelPair.Name l = name) then Some (LabelPair.Value l) else None
      end
  end.

(** The argument for a label column as the specification words it: the
    value if present and non-empty, else the NULL marker. *)
Definition labelArg (ts : TimeSeries.t) (name : string) : Arg :=
  match labelValue (TimeSeries.Labels ts) name with
  | Some value => if decide (value = EmptyString) then ArgNil else ArgString value
  | None => ArgNil
  end.

Definition specSampleArgs (labels : list string) (ts : TimeSeries.t) (s : Sample.t)
  : list Arg :=
  (labelArg ts <$> labels) ++
  [ArgString (formatFloat (Sample.Value s));
   ArgInt64 (encodeValueRaw (Sample.Value s));
   ArgInt64 (Sample.TimestampMs s)].

(** The value of a label in a series when it is not the empty string. *)
Definition nonEmptyLabel (ts : TimeSeries.t) (name : string) : option string :=
  match labelValue (TimeSeries.Labels ts) name with
  | Some value => if decide (value = EmptyString) then None else Some value
  | None => None
  end.

(** *** [handleRead] and [handleWrite] *)

(** Lines 243-298. [body] is what [ioutil.ReadAll(r.Body)] returns; the
    result is the list of calls on [w]. The timers and the log lines are
    left out. *)
Definition handleRead (url : string) (body : string * option error)
  : outcome (list event) :=
  let '(compressed, err) := body in
  match err with
  | Some e => Done [EvError e StatusBadRequest]
  | None =>
      let '(reqBuf, err) := snappy_Decode compressed in
      match err with
      | Some e => Done [EvError e StatusBadRequest]
      | None =>
          let '(queries, err) := unmarshalReadRequest reqBuf in
          match err with
          | Some e => Done [EvError e StatusBadRequest]
          | None =>
              match queries with
              | [q] =>
                  bindOutcome (runQuery url q)
                    (fun '(result, err) =>
                       match err with
                       | Some e => Done [EvError e StatusInternalServerError]
                       | None =>
                           let '(data, err) := marshalReadResponse result in
                           match err with
                           | Some e => Done [EvError e StatusInternalServerError]
                           | None =>
                               let encoded := snappy_Encode data in
                               Done ([EvSetHeader "Content-Type" "application/x-protobuf";
                                      EvWrite encoded] ++
                                     match w_Write encoded with
                                     | Some e => [EvError e StatusInternalServerError]
                                     | None => []
                                     end)
                           end
                       end)
              | _ => Done [EvError "Can only handle one query." StatusBadRequest]
              end
          end
      end
  end.

(** Lines 355-406. The body of the answer of the store is what
    [ioutil.ReadAll(resp.Body)] gives; its error is discarded. *)
Definition handleWrite (url : string) (body : string * option error) : list event :=
  let '(compressed, err) := body in
  match err with
  | Some e => [EvError e StatusInternalServerError]
  | None =>
      let '(reqBuf, err) := snappy_Decode compressed in
      match err with
      | Some e => [EvError e StatusBadRequest]
      | None =>
          let '(req, err) := unmarshalWriteRequest reqBuf in
          match err with
          | Some e => [EvError e StatusBadRequest]
          | None =>
              let request := writesToCrateRequest req in
              let '(jsonRequest, err) := json_Marshal request in
              match err with
              | Some e => [EvError e StatusInternalServerError]
              | None =>
                  let '(resp, err) := client_Post url jsonRequest in
                  match err with
                  | Some e => [EvError e StatusInternalServerError]
                  | None =>
                      if decide (StatusCode resp <> StatusOK)
                      then [EvError (Body resp) StatusInternalServerError]
                      else []
                  end
              end
          end
      end
  end.

(** ** Properties *)

(** *** The order of [sort.Strings] *)

Lemma sortStrings_sorted (l : list string) : StronglySorted String.le (sortStrings l).
Proof. apply StronglySorted_merge_sort; apply _. Qed.

Lemma sortStrings_perm (l : list string) : sortStrings l ≡ₚ l.
Proof. apply merge_sort_Permutation. Qed.

Lemma sortStrings_elem_of (l : list string) (x : string) : x ∈ sortStrings l <-> x ∈ l.
Proof. by rewrite sortStrings_perm. Qed.

Lemma StronglySorted_le_lt (l : list string) :
  StronglySorted String.le l -> NoDup l -> StronglySorted string_lt l.
Proof.
  induction 1 as [|x l Hl IH Hx]; intros Hnd; [constructor|].
  apply NoDup_cons in Hnd as [Hx' Hnd].
  constructor; [by apply IH|].
  apply Forall_forall. intros y Hy.
  rewrite Forall_forall in Hx. specialize (Hx y Hy).
  apply strict_spec_alt. split; [done|]. by intros ->.
Qed.

Lemma sortStrings_strict (l : list string) :
  NoDup l -> StronglySorted string_lt (sortStrings l).
Proof.
  intros Hnd. apply StronglySorted_le_lt; [apply sortStrings_sorted|].
  by rewrite sortStrings_perm.
Qed.

(** The iteration order of a Go map is unspecified; after [sort.Strings]
    the order in which the keys were collected no longer matters. *)
Lemma sortStrings_order_independent (l1 l2 : list string) :
  l1 ≡ₚ l2 -> sortStrings l1 = sortStrings l2.
Proof.
  intros Hperm.
  apply (StronglySorted_unique String.le); [apply sortStrings_sorted..|].
  by rewrite !sortStrings_perm.
Qed.

Lemma StronglySorted_lt_NoDup (l : list string) :
  StronglySorted string_lt l -> NoDup l.
Proof.
  induction 1 as [|x l Hl IH Hx]; constructor; [|done].
  intros Hin. rewrite Forall_forall in Hx.
  by destruct (irreflexivity string_lt x (Hx x Hin)).
Qed.

(** *** The raw bit pattern of a sample value *)

Lemma uint64_int64_uint64 (x : Z) :
  0 <= x < two64 -> uint64_of_int64 (int64_of_uint64 x) = x.
Proof.
  unfold uint64_of_int64, int64_of_uint64, two64, two63.
  intros Hx. case_decide; Z.div_mod_to_equations; lia.
Qed.

Lemma int64_of_uint64_range (x : Z) :
  0 <= x < two64 -> MinInt64 <= int64_of_uint64 x <= MaxInt64.
Proof.
  unfold int64_of_uint64, MinInt64, MaxInt64, two64, two63.
  intros Hx. case_decide; lia.
Qed.

(** C2: for every float64 sample value, NaN and the infinities included,
    the int64 written to [valueRaw] decodes, as the read path decodes it,
    to the value with the same 64 bits. *)
Theorem valueRaw_roundtrip (f : float64) :
  float64_wf f ->
  decodeValueRaw (encodeValueRaw f) = f /\
  Float64bits (decodeValueRaw (encodeValueRaw f)) = Float64bits f.
Proof.
  intros Hf. unfold decodeValueRaw, encodeValueRaw.
  rewrite (uint64_int64_uint64 _ Hf). by destruct f.
Qed.

(** *** The escaper *)

Lemma string_app_cons (c : ascii) (s1 s2 : string) :
  String c s1 +:+ s2 = String c (s1 +:+ s2).
Proof. reflexivity. Qed.

Lemma string_app_nil_l (s : string) : EmptyString +:+ s = s.
Proof. reflexivity. Qed.

Lemma string_app_assoc (s1 s2 s3 : string) :
  (s1 +:+ s2) +:+ s3 = s1 +:+ s2 +:+ s3.
Proof.
  induction s1 as [|c s1 IH]; [done|].
  by rewrite !string_app_cons, IH.
Qed.

(** The replacement of a byte is the byte itself, or a backslash and the
    byte. *)
Lemma replacementOf_cases (c : ascii) :
  (replacementOf escaperPairs c = String "\" (String c EmptyString) /\
     (c = "\"%char \/ c = dquote \/ c = "'"%char)) \/
  (replacementOf escaperPairs c = String c EmptyString /\
     c <> "\"%char /\ c <> dquote /\ c <> "'"%char).
Proof.
  unfold escaperPairs, replacementOf.
  repeat case_decide; subst; auto 10.
Qed.

Lemma readEscaped_Replace (q : ascii) (s : string) :
  q = dquote \/ q = "'"%char ->
  readEscaped q (escaper_Replace s +:+ String q EmptyString) = Some s.
Proof.
  intros Hq. induction s as [|c s IH].
  - simpl. rewrite decide_True by done. done.
  - cbn [escaper_Replace]. rewrite string_app_assoc.
    destruct (replacementOf_cases c) as [[-> Hc]|[-> (Hc1 & Hc2 & Hc3)]].
    + rewrite !string_app_cons. cbn [readEscaped String.append].
      rewrite decide_False by (destruct Hq; by subst).
      rewrite decide_True by done.
      change (String.append EmptyString ?x) with x.
      fold String.append. by rewrite IH.
    + rewrite !string_app_cons. cbn [readEscaped].
      rewrite decide_False by (destruct Hq; by subst).
      rewrite decide_False by done.
      change (EmptyString +:+ ?x) with x. by rewrite IH.
Qed.

Lemma readLabelColumn_escape (s : string) :
  readLabelColumn (escapeLabelName s) = Some s.
Proof.
  unfold readLabelColumn, escapeLabelName, DQ.
  rewrite ?string_app_cons, ?string_app_nil_l.
  cbn [readLiteral]. rewrite decide_True by done.
  cbn [readEscaped]. rewrite !decide_False by done.
  rewrite ?string_app_cons, ?string_app_nil_l.
  rewrite readEscaped_Replace by auto. done.
Qed.

Lemma readStringLiteral_escape (s : string) :
  readStringLiteral (escapeLabelValue s) = Some s.
Proof.
  unfold readStringLiteral, escapeLabelValue.
  rewrite ?string_app_cons, ?string_app_nil_l.
  cbn [readLiteral]. rewrite decide_True by done.
  apply readEscaped_Replace. auto.
Qed.

(** The escaping replacement is injective. *)
Lemma escaper_Replace_inj (s1 s2 : string) :
  escaper_Replace s1 = escaper_Replace s2 -> s1 = s2.
Proof.
  intros H.
  assert (Some s1 = Some s2) as [= ->]; [|done].
  rewrite <- (readEscaped_Replace "'"%char s1), <- (readEscaped_Replace "'"%char s2) by auto.
  by rewrite H.
Qed.

(** C9: a label name or value, escaped and read back as a quoted literal
    with backslash escapes, is the original string: the literal ends
    where the escaper closed it and its text is the input. Equivalently,
    the replacement of the escaper is injective. *)
Theorem escape_read_roundtrip (s : string) :
  readLabelColumn (escapeLabelName s) = Some s /\
  readStringLiteral (escapeLabelValue s) = Some s /\
  (forall s', escaper_Replace s = escaper_Replace s' -> s = s').
Proof.
  split; [apply readLabelColumn_escape|].
  split; [apply readStringLiteral_escape|].
  apply escaper_Replace_inj.
Qed.

(** So are the two escape functions. *)
Lemma escapeLabelName_inj (s1 s2 : string) :
  escapeLabelName s1 = escapeLabelName s2 -> s1 = s2.
Proof.
  intros H.
  assert (Some s1 = Some s2) as [= ->]; [|done].
  rewrite <- (readLabelColumn_escape s1), <- (readLabelColumn_escape s2).
  by rewrite H.
Qed.

Lemma escapeLabelValue_inj (s1 s2 : string) :
  escapeLabelValue s1 = escapeLabelValue s2 -> s1 = s2.
Proof.
  intros H.
  assert (Some s1 = Some s2) as [= ->]; [|done].
  rewrite <- (readStringLiteral_escape s1), <- (readStringLiteral_escape s2).
  by rewrite H.
Qed.

(** *** The matcher and query translators *)

Lemma matcherStep_table (selectors : list string) (m : LabelMatcher.t) :
  regexError m = None ->
  exists p, TablePredicate m p /\ matcherStep selectors m = Continue (selectors ++ [p]).
Proof.
  destruct m as [ty name value]. unfold regexError, matcherStep, anchored.
  destruct ty; cbn [LabelMatcher.Type_ LabelMatcher.Name LabelMatcher.Value isRegexType].
  - intros _. case_decide as Hv; [subst value|]; eexists; split; eauto using TablePredicate.
  - intros _. case_decide as Hv; [subst value|]; eexists; split; eauto using TablePredicate.
  - destruct (MatchString _ _) as [b err] eqn:E. cbn [snd]. intros ->.
    destruct b; eexists; split; eauto using TablePredicate.
  - destruct (MatchString _ _) as [b err] eqn:E. cbn [snd]. intros ->.
    destruct b; eexists; split; eauto using TablePredicate.
Qed.

Lemma matcherStep_error (selectors : list string) (m : LabelMatcher.t) (e : error) :
  regexError m = Some e -> matcherStep selectors m = Return e.
Proof.
  destruct m as [ty name value]. unfold regexError, matcherStep, anchored.
  destruct ty; cbn [LabelMatcher.Type_ LabelMatcher.Name LabelMatcher.Value isRegexType];
    try done.
  - destruct (MatchString _ _) as [b err]. cbn [snd]. by intros ->.
  - destruct (MatchString _ _) as [b err]. cbn [snd]. by intros ->.
Qed.

Lemma TablePredicate_functional (m : LabelMatcher.t) (p1 p2 : string) :
  TablePredicate m p1 -> TablePredicate m p2 -> p1 = p2.
Proof. destruct 1; inversion 1; subst; congruence. Qed.

Lemma Forall2_TablePredicate_functional (ms : list LabelMatcher.t) (ps1 ps2 : list string) :
  Forall2 TablePredicate ms ps1 -> Forall2 TablePredicate ms ps2 -> ps1 = ps2.
Proof.
  intros H. revert ps2. induction H as [|m p ms ps Hp _ IH]; inversion 1; subst; [done|].
  f_equal; eauto using TablePredicate_functional.
Qed.

Lemma matcherLoop_table (ms : list LabelMatcher.t) (selectors : list string) :
  Forall (fun m => regexError m = None) ms ->
  exists ps, Forall2 TablePredicate ms ps /\
             matcherLoop ms selectors = Continue (selectors ++ ps).
Proof.
  intros H. revert selectors. induction H as [|m ms Hm _ IH]; intros selectors.
  - exists []. by rewrite app_nil_r.
  - destruct (matcherStep_table selectors m Hm) as (p & Hp & Hstep).
    destruct (IH (selectors ++ [p])) as (ps & Hps & Hloop).
    exists (p :: ps). split; [by constructor|].
    cbn [matcherLoop]. rewrite Hstep, Hloop. by rewrite <- app_assoc.
Qed.

Lemma matcherLoop_error (ms : list LabelMatcher.t) (selectors : list string) :
  Exists (fun m => regexError m <> None) ms ->
  exists m e, m ∈ ms /\ regexError m = Some e /\ matcherLoop ms selectors = Return e.
Proof.
  revert selectors. induction ms as [|m ms IH]; intros selectors Hex.
  - by apply Exists_nil in Hex.
  - destruct (regexError m) as [e|] eqn:Hm.
    + exists m, e. split; [left|]. split; [done|].
      cbn [matcherLoop]. by rewrite (matcherStep_error _ _ _ Hm).
    + apply Exists_cons in Hex as [Hex|Hex]; [done|].
      destruct (matcherStep_table selectors m Hm) as (p & _ & Hstep).
      destruct (IH (selectors ++ [p]) Hex) as (m' & e & Hin & He & Hloop).
      exists m', e. split; [by right|]. split; [done|].
      cbn [matcherLoop]. by rewrite Hstep.
Qed.

(** C1: for every label matcher the loop of [queryToSQL] emits exactly
    one predicate, the one the table of the matcher translator gives for
    its match type, its value and the answer of the regex engine on the
    anchored pattern and the empty string. *)
Theorem matcher_predicates_follow_table (ms : list LabelMatcher.t) :
  Forall (fun m => regexError m = None) ms ->
  exists ps,
    matcherLoop ms [] = Continue ps /\
    Forall2 TablePredicate ms ps /\
    forall ps', Forall2 TablePredicate ms ps' -> ps' = ps.
Proof.
  intros H. destruct (matcherLoop_table ms [] H) as (ps & Hps & Hloop).
  exists ps. split; [done|]. split; [done|].
  intros ps' Hps'. eauto using Forall2_TablePredicate_functional.
Qed.

(** C3: the statement of a query is [SELECT * from metrics WHERE],
    the matcher predicates in matcher order, then the upper and the lower
    bound on the timestamp, all joined by [AND], and [ORDER BY timestamp];
    the request carries no bound arguments. *)
Theorem queryToSQL_statement (q : Query.t) :
  Forall (fun m => regexError m = None) (Query.Matchers q) ->
  exists ps,
    Forall2 TablePredicate (Query.Matchers q) ps /\
    queryToSQL q =
      ("SELECT * from metrics WHERE "
         +:+ Join (ps ++ ["(timestamp <= " +:+ pretty (Query.EndTimestampMs q) +:+ ")";
                          "(timestamp >= " +:+ pretty (Query.StartTimestampMs q) +:+ ")"])
                  " AND "
         +:+ " ORDER BY timestamp", None) /\
    BulkArgs (selectRequest (fst (queryToSQL q))) = [].
Proof.
  intros H. destruct (matcherLoop_table _ [] H) as (ps & Hps & Hloop).
  exists ps. split; [done|]. split; [|done].
  unfold queryToSQL. rewrite Hloop. cbn [app]. by rewrite <- app_assoc.
Qed.

(** C8, as the code has it: a query with a regex matcher whose anchored
    pattern [^(?:value)$] the regex engine rejects is not translated:
    [queryToSQL] returns the empty statement and the error of the engine
    for such a matcher. The bare value is never given to the engine. *)
Theorem queryToSQL_invalid_regex (q : Query.t) :
  Exists (fun m => regexError m <> None) (Query.Matchers q) ->
  exists m e,
    m ∈ Query.Matchers q /\
    isRegexType (LabelMatcher.Type_ m) = true /\
    snd (MatchString (anchored (LabelMatcher.Value m)) EmptyString) = Some e /\
    queryToSQL q = (EmptyString, Some e).
Proof.
  intros H. destruct (matcherLoop_error _ [] H) as (m & e & Hin & He & Hloop).
  exists m, e. split; [done|].
  unfold regexError in He.
  destruct (isRegexType (LabelMatcher.Type_ m)); [|done].
  split; [done|]. split; [done|].
  unfold queryToSQL. by rewrite Hloop.
Qed.

(** *** The write builder *)

Lemma foldl_app_concat {A B : Type} (f : A -> list B) (l : list A) (init : list B) :
  foldl (fun acc x => acc ++ f x) init l = init ++ concat (f <$> l).
Proof.
  revert init. induction l as [|x l IH]; intros init; cbn.
  - by rewrite app_nil_r.
  - by rewrite IH, app_assoc.
Qed.

Lemma labelNames_elem_of (ls : list LabelPair.t) (acc : gset string) (name : string) :
  name ∈ foldl (fun labelsUsed l => {[LabelPair.Name l]} ∪ labelsUsed) acc ls <->
  name ∈ acc \/ exists l, l ∈ ls /\ LabelPair.Name l = name.
Proof.
  revert acc. induction ls as [|l ls IH]; intros acc; cbn [foldl].
  - split; [auto|]. intros [?|(l & Hl & _)]; [done|]. by apply elem_of_nil in Hl.
  - rewrite IH. rewrite elem_of_union, elem_of_singleton. split.
    + intros [[->|?]|(l' & Hl' & <-)]; [right|by left|right].
      * exists l. split; [left|done].
      * exists l'. split; [by right|done].
    + intros [?|(l' & Hl' & <-)]; [by left; right|].
      apply elem_of_cons in Hl' as [->|Hl']; [by left; left|].
      right. by exists l'.
Qed.

Lemma labelsUsed_elem_of (tss : list TimeSeries.t) (acc : gset string) (name : string) :
  name ∈ foldl (fun labelsUsed ts =>
                  foldl (fun labelsUsed l => {[LabelPair.Name l]} ∪ labelsUsed)
                        labelsUsed (TimeSeries.Labels ts)) acc tss <->
  name ∈ acc \/
  exists ts l, ts ∈ tss /\ l ∈ TimeSeries.Labels ts /\ LabelPair.Name l = name.
Proof.
  revert acc. induction tss as [|ts tss IH]; intros acc; cbn [foldl].
  - split; [auto|]. intros [?|(ts & l & Hts & _)]; [done|]. by apply elem_of_nil in Hts.
  - rewrite IH, labelNames_elem_of. split.
    + intros [[?|(l & Hl & <-)]|(ts' & l & Hts' & Hl & <-)]; [by left|right..].
      * exists ts, l. split; [left|done].
      * exists ts', l. split; [by right|done].
    + intros [?|(ts' & l & Hts' & Hl & <-)]; [by left; left|].
      apply elem_of_cons in Hts' as [->|Hts'].
      * left. right. by exists l.
      * right. by exists ts', l.
Qed.

Lemma labelsUsedOf_elem_of (req : WriteRequest.t) (name : string) :
  name ∈ labelsUsedOf req <->
  exists ts l, ts ∈ WriteRequest.Timeseries req /\
               l ∈ TimeSeries.Labels ts /\ LabelPair.Name l = name.
Proof.
  unfold labelsUsedOf. rewrite labelsUsed_elem_of. split; [|auto].
  intros [H|H]; [|done]. by apply elem_of_empty in H.
Qed.

Lemma foldl_insert_lookup (ls : list LabelPair.t) (m : Metric) (name : string) :
  foldl (fun m l => <[LabelPair.Name l := LabelPair.Value l]> m) m ls !! name =
  match labelValue ls name with
  | Some value => Some value
  | None => m !! name
  end.
Proof.
  revert m. induction ls as [|l ls IH]; intros m; cbn [foldl labelValue]; [done|].
  rewrite IH. destruct (labelValue ls name); [done|].
  case_decide as Hn.
  - subst name. by rewrite lookup_insert_eq.
  - by rewrite lookup_insert_ne.
Qed.

Lemma seriesMetric_lookup (ts : TimeSeries.t) (name : string) :
  seriesMetric ts !! name = labelValue (TimeSeries.Labels ts) name.
Proof.
  unfold seriesMetric. rewrite foldl_insert_lookup.
  by destruct (labelValue _ _).
Qed.

Lemma sampleArgs_spec (labels : list string) (ts : TimeSeries.t) (s : Sample.t) :
  sampleArgs labels (seriesMetric ts) s = specSampleArgs labels ts s.
Proof.
  unfold sampleArgs, specSampleArgs, encodeValueRaw.
  rewrite <- !app_assoc. cbn [app]. f_equal.
  apply list_fmap_ext. intros _ name _.
  unfold labelArg. rewrite seriesMetric_lookup.
  destruct (labelValue _ _) as [value|]; cbn [default]; [done|].
  by rewrite decide_True.
Qed.

Lemma writesToCrateRequest_BulkArgs (req : WriteRequest.t) :
  BulkArgs (writesToCrateRequest req) =
  concat ((fun ts => specSampleArgs (sortStrings (elements (labelsUsedOf req))) ts
                       <$> TimeSeries.Samples ts)
            <$> WriteRequest.Timeseries req).
Proof.
  unfold writesToCrateRequest. cbn [BulkArgs].
  rewrite foldl_app_concat. cbn [app]. f_equal.
  apply list_fmap_ext. intros _ ts _. unfold seriesArgs.
  apply list_fmap_ext. intros _ s _. apply sampleArgs_spec.
Qed.

Lemma length_concat_fmap_fmap {A B C : Type} (g : A -> list B) (f : A -> B -> C)
  (l : list A) :
  length (concat ((fun x => f x <$> g x) <$> l)) = length (concat (g <$> l)).
Proof.
  induction l as [|x l IH]; cbn; [done|].
  by rewrite !length_app, length_fmap, IH.
Qed.

(** C5: the columns of the bulk insert are the sorted union of the label
    names of the batch, escaped, followed by [value], [valueRaw] and
    [timestamp], with one placeholder each; there is one argument row per
    sample of each series, with for each label of the union the value of
    the series if present and non-empty and NULL otherwise, then the
    decimal string, the raw bit pattern as int64 and the timestamp. *)
Theorem writesToCrateRequest_spec (req : WriteRequest.t) :
  exists labels,
    StronglySorted string_lt labels /\
    (forall name,
        name ∈ labels <->
        exists ts l, ts ∈ WriteRequest.Timeseries req /\
                     l ∈ TimeSeries.Labels ts /\ LabelPair.Name l = name) /\
    Stmt (writesToCrateRequest req) =
      "INSERT INTO metrics (" +:+ Join (escapeLabelName <$> labels) ", "
        +:+ ", " +:+ DQ +:+ "value" +:+ DQ +:+ ", " +:+ DQ +:+ "valueRaw" +:+ DQ
        +:+ ", " +:+ DQ +:+ "timestamp" +:+ DQ
        +:+ ") VALUES (" +:+ Repeat "?, " (length labels) +:+ " ?, ?, ?)" /\
    BulkArgs (writesToCrateRequest req) =
      concat ((fun ts => specSampleArgs labels ts <$> TimeSeries.Samples ts)
                <$> WriteRequest.Timeseries req) /\
    length (BulkArgs (writesToCrateRequest req)) =
      length (concat (TimeSeries.Samples <$> WriteRequest.Timeseries req)).
Proof.
  exists (sortStrings (elements (labelsUsedOf req))).
  split; [apply sortStrings_strict, NoDup_elements|].
  split.
  { intros name. by rewrite sortStrings_elem_of, elem_of_elements, labelsUsedOf_elem_of. }
  split; [done|].
  split; [apply writesToCrateRequest_BulkArgs|].
  rewrite writesToCrateRequest_BulkArgs. apply length_concat_fmap_fmap.
Qed.

Lemma labelsUsedOf_no_labels (req : WriteRequest.t) :
  Forall (fun ts => TimeSeries.Labels ts = []) (WriteRequest.Timeseries req) ->
  labelsUsedOf req = ∅.
Proof.
  intros H. apply set_eq. intros name. rewrite labelsUsedOf_elem_of.
  split; [|by intros ?%elem_of_empty].
  intros (ts & l & Hts & Hl & _).
  rewrite Forall_forall in H. rewrite (H ts Hts) in Hl. by apply elem_of_nil in Hl.
Qed.

(** C10: when no series of the batch carries a label, the column list of
    the statement starts with a bare comma, and every sample still gives
    one argument row of three values. *)
Theorem writesToCrateRequest_no_labels (req : WriteRequest.t) :
  Forall (fun ts => TimeSeries.Labels ts = []) (WriteRequest.Timeseries req) ->
  Stmt (writesToCrateRequest req) =
    "INSERT INTO metrics (, " +:+ DQ +:+ "value" +:+ DQ +:+ ", " +:+ DQ +:+ "valueRaw"
      +:+ DQ +:+ ", " +:+ DQ +:+ "timestamp" +:+ DQ +:+ ") VALUES ( ?, ?, ?)" /\
  Forall (fun args => length args = 3%nat) (BulkArgs (writesToCrateRequest req)) /\
  length (BulkArgs (writesToCrateRequest req)) =
    length (concat (TimeSeries.Samples <$> WriteRequest.Timeseries req)).
Proof.
  intros H. pose proof (labelsUsedOf_no_labels req H) as Hempty.
  split; [|split].
  - unfold writesToCrateRequest. cbn [Stmt]. rewrite Hempty, elements_empty. done.
  - rewrite writesToCrateRequest_BulkArgs, Hempty, elements_empty.
    apply Forall_forall. intros args Hargs.
    apply list_elem_of_In, in_concat in Hargs as (rows & Hrows & Hargs).
    apply list_elem_of_In, list_elem_of_fmap in Hrows as (ts & -> & _).
    apply list_elem_of_In, list_elem_of_fmap in Hargs as (smp & -> & _).
    done.
  - rewrite writesToCrateRequest_BulkArgs. apply length_concat_fmap_fmap.
Qed.

(** *** The result assembler *)

Lemma rowLoop_decodeRows (cols : list string) (rows : list (list JSONValue))
  (timeseries : gmap string TimeSeries.t) :
  rowLoop cols rows timeseries =
  bindOutcome (decodeRows cols rows)
    (fun vs => Done (foldl addSample timeseries vs)).
Proof.
  revert timeseries. induction rows as [|row rows IH]; intros timeseries; [done|].
  cbn [rowLoop decodeRows].
  destruct (decodeRow cols row) as [vars|msg]; cbn [bindOutcome]; [|done].
  rewrite IH. by destruct (decodeRows cols rows).
Qed.

Lemma addSample_lookup_eq (timeseries : gmap string TimeSeries.t) (vars : rowVars) :
  addSample timeseries vars !! rowKey vars =
  Some (match timeseries !! rowKey vars with
        | Some ts =>
            TimeSeries.mk (TimeSeries.Labels ts) (TimeSeries.Samples ts ++ [sampleOf vars])
        | None => TimeSeries.mk (seriesLabels (metric vars)) [sampleOf vars]
        end).
Proof.
  unfold addSample. fold (rowKey vars). rewrite lookup_insert_eq.
  by destruct (timeseries !! rowKey vars).
Qed.

Lemma addSample_lookup_ne (timeseries : gmap string TimeSeries.t) (vars : rowVars)
  (key : string) :
  rowKey vars <> key -> addSample timeseries vars !! key = timeseries !! key.
Proof. intros Hne. unfold addSample. fold (rowKey vars). by rewrite lookup_insert_ne. Qed.

(** The map after the row loop, key by key: a series that was there has
    the samples of the rows with its key appended; a new series has the
    labels of the first such row. *)
Lemma foldl_addSample_lookup (vs : list rowVars) (timeseries : gmap string TimeSeries.t)
  (key : string) :
  foldl addSample timeseries vs !! key =
  match timeseries !! key with
  | Some ts =>
      Some (TimeSeries.mk (TimeSeries.Labels ts)
              (TimeSeries.Samples ts ++ samplesOf key vs))
  | None =>
      (fun vars => TimeSeries.mk (seriesLabels (metric vars)) (samplesOf key vs))
        <$> head (filter (fun vars => rowKey vars = key) vs)
  end.
Proof.
  revert timeseries. induction vs as [|vars vs IH]; intros timeseries.
  - cbn. destruct (timeseries !! key) as [[labels samples]|]; [|done].
    cbn. by rewrite app_nil_r.
  - cbn [foldl]. rewrite IH. unfold samplesOf.
    destruct (decide (rowKey vars = key)) as [<-|Hne].
    + rewrite addSample_lookup_eq, filter_cons_True by done.
      destruct (timeseries !! rowKey vars) as [ts|]; cbn.
      * by rewrite <- app_assoc.
      * done.
    + rewrite addSample_lookup_ne, filter_cons_False by done. done.
Qed.

Lemma assembled_lookup (vs : list rowVars) (key : string) :
  foldl addSample ∅ vs !! key =
  (fun vars => TimeSeries.mk (seriesLabels (metric vars)) (samplesOf key vs))
    <$> head (filter (fun vars => rowKey vars = key) vs).
Proof. by rewrite foldl_addSample_lookup, lookup_empty. Qed.

Lemma assembled_lookup_Some (vs : list rowVars) (key : string) (ts : TimeSeries.t) :
  foldl addSample ∅ vs !! key = Some ts ->
  exists vars, vars ∈ vs /\ rowKey vars = key /\
               ts = TimeSeries.mk (seriesLabels (metric vars)) (samplesOf key vs).
Proof.
  rewrite assembled_lookup. intros H.
  destruct (filter _ vs) as [|vars l] eqn:Hf; [done|].
  injection H as <-. exists vars.
  assert (vars ∈ filter (fun vars => rowKey vars = key) vs) as Hin.
  { rewrite Hf. left. }
  apply list_elem_of_filter in Hin as [? ?]. done.
Qed.

Lemma assembled_lookup_row (vs : list rowVars) (vars : rowVars) :
  vars ∈ vs -> is_Some (foldl addSample ∅ vs !! rowKey vars).
Proof.
  intros Hin. rewrite assembled_lookup.
  assert (vars ∈ filter (fun vars' => rowKey vars' = rowKey vars) vs) as Hf.
  { by apply list_elem_of_filter. }
  destruct (filter _ vs); [by apply elem_of_nil in Hf|]. by eexists.
Qed.

(** The labels of a series give back the label set they were made from. *)
Lemma seriesLabels_names (m : Metric) :
  LabelPair.Name <$> seriesLabels m = sortStrings ((map_to_list m).*1).
Proof.
  unfold seriesLabels. rewrite <- list_fmap_compose.
  rewrite <- (list_fmap_id (sortStrings _)) at 2.
  by apply list_fmap_ext.
Qed.

Lemma labelsMetric_seriesLabels (m : Metric) : labelsMetric (seriesLabels m) = m.
Proof.
  unfold labelsMetric, seriesLabels. rewrite <- list_fmap_compose.
  set (pair_of := (fun l => (LabelPair.Name l, LabelPair.Value l))
                  ∘ (fun k => LabelPair.mk k (default EmptyString (m !! k)))).
  assert (forall l : list string, (pair_of <$> l).*1 = l) as Hfst.
  { induction l as [|k l IH]; cbn; [done|]. by rewrite IH. }
  apply map_eq. intros name.
  destruct (m !! name) as [value|] eqn:Hm.
  - apply elem_of_list_to_map_1.
    + rewrite Hfst, sortStrings_perm. apply NoDup_fst_map_to_list.
    + apply list_elem_of_fmap. exists name. unfold pair_of. cbn. rewrite Hm.
      split; [done|].
      apply sortStrings_elem_of, list_elem_of_fmap.
      exists (name, value). split; [done|]. by apply elem_of_map_to_list.
  - apply not_elem_of_list_to_map_1.
    rewrite Hfst, sortStrings_elem_of.
    intros ([name' value] & -> & Hin)%list_elem_of_fmap.
    apply elem_of_map_to_list in Hin. cbn in Hm. congruence.
Qed.

Lemma seriesLabels_sorted (m : Metric) :
  StronglySorted string_lt (LabelPair.Name <$> seriesLabels m).
Proof.
  rewrite seriesLabels_names. apply sortStrings_strict, NoDup_fst_map_to_list.
Qed.

Lemma decodeRows_Forall2 (cols : list string) (rows : list (list JSONValue))
  (vs : list rowVars) :
  Forall2 (fun row vars => decodeRow cols row = Done vars) rows vs ->
  decodeRows cols rows = Done vs.
Proof.
  induction 1 as [|row vars rows vs Hrow _ IH]; [done|].
  cbn [decodeRows]. by rewrite Hrow, IH.
Qed.

Lemma assembled_seriesKey (vs : list rowVars) (key : string) (ts : TimeSeries.t) :
  foldl addSample ∅ vs !! key = Some ts -> seriesKey ts = key.
Proof.
  intros (vars & _ & Hkey & ->)%assembled_lookup_Some.
  unfold seriesKey. cbn [TimeSeries.Labels]. by rewrite labelsMetric_seriesLabels.
Qed.

Lemma sortedSeries_elem_of (timeseries : gmap string TimeSeries.t) (ts : TimeSeries.t) :
  ts ∈ sortedSeries timeseries <-> exists key, timeseries !! key = Some ts.
Proof.
  unfold sortedSeries. rewrite list_elem_of_fmap. split.
  - intros (name & -> & Hname).
    apply sortStrings_elem_of, list_elem_of_fmap in Hname as ([name' ts'] & -> & Hin).
    apply elem_of_map_to_list in Hin. exists name'. cbn. by rewrite Hin.
  - intros (key & Hkey). exists key. rewrite Hkey. split; [done|].
    apply sortStrings_elem_of, list_elem_of_fmap.
    exists (key, ts). split; [done|]. by apply elem_of_map_to_list.
Qed.

Lemma sortedSeries_keys (vs : list rowVars) :
  seriesKey <$> sortedSeries (foldl addSample ∅ vs) =
  sortStrings ((map_to_list (foldl addSample ∅ vs)).*1).
Proof.
  unfold sortedSeries. rewrite <- list_fmap_compose.
  rewrite <- (list_fmap_id (sortStrings _)) at 2.
  apply Forall_fmap_ext_1, Forall_forall. intros name Hname.
  apply sortStrings_elem_of, list_elem_of_fmap in Hname as ([name' ts] & -> & Hin).
  apply elem_of_map_to_list in Hin. cbn. rewrite Hin. cbn.
  by apply assembled_seriesKey in Hin.
Qed.

(** C4: the rows of a table are grouped by the key of their label set.
    The series come out in the strict order of their keys, each with its
    label names in strict order; a series holds the samples of exactly
    the rows with its key, in row order, under the labels of such a row;
    and every row, hence every two rows with the same label set, is in
    exactly one series. *)
Theorem responseToTimeseries_groups (data : crateResponse) (vs : list rowVars) :
  Forall2 (fun row vars => decodeRow (Cols data) row = Done vars) (Rows data) vs ->
  exists resp,
    responseToTimeseries data = Done resp /\
    StronglySorted string_lt (seriesKey <$> resp) /\
    Forall (fun ts => StronglySorted string_lt
                        (LabelPair.Name <$> TimeSeries.Labels ts)) resp /\
    (forall ts, ts ∈ resp ->
       TimeSeries.Samples ts = samplesOf (seriesKey ts) vs /\
       exists vars, vars ∈ vs /\ rowKey vars = seriesKey ts /\
                    labelsMetric (TimeSeries.Labels ts) = metric vars) /\
    (forall vars, vars ∈ vs ->
       exists ts, ts ∈ resp /\ seriesKey ts = rowKey vars /\
                  sampleOf vars ∈ TimeSeries.Samples ts /\
                  forall ts', ts' ∈ resp -> seriesKey ts' = rowKey vars -> ts' = ts).
Proof.
  intros Hrows%decodeRows_Forall2.
  exists (sortedSeries (foldl addSample ∅ vs)).
  split.
  { unfold responseToTimeseries. by rewrite rowLoop_decodeRows, Hrows. }
  split.
  { rewrite sortedSeries_keys. apply sortStrings_strict, NoDup_fst_map_to_list. }
  split.
  { apply Forall_forall. intros ts (key & Hkey)%sortedSeries_elem_of.
    apply assembled_lookup_Some in Hkey as (vars & _ & _ & ->).
    apply seriesLabels_sorted. }
  split.
  { intros ts (key & Hkey)%sortedSeries_elem_of.
    pose proof (assembled_seriesKey _ _ _ Hkey) as ->.
    apply assembled_lookup_Some in Hkey as (vars & Hin & Hk & ->).
    split; [done|]. exists vars. cbn [TimeSeries.Labels].
    by rewrite labelsMetric_seriesLabels. }
  intros vars Hin.
  destruct (assembled_lookup_row vs vars Hin) as [ts Hts].
  exists ts. split; [apply sortedSeries_elem_of; eauto|].
  split; [by apply assembled_seriesKey in Hts|].
  split.
  { apply assembled_lookup_Some in Hts as (vars' & _ & _ & ->).
    cbn [TimeSeries.Samples]. unfold samplesOf.
    apply list_elem_of_fmap_2. by apply list_elem_of_filter. }
  intros ts' (key' & Hkey')%sortedSeries_elem_of Hk.
  pose proof (assembled_seriesKey _ _ _ Hkey') as Hk'.
  rewrite Hk in Hk'. subst key'. congruence.
Qed.

(** *** Panics and silent defaults of the result assembler *)

Lemma cellStep_panic_iff (cols : list string) (vars : rowVars) (i : nat)
  (value : JSONValue) :
  isPanic (cellStep cols vars i value) <-> PanicCell cols i value.
Proof.
  split.
  - unfold cellStep.
    destruct (cols !! i) as [column|] eqn:Hcol; [|intros _; by apply PC_no_column].
    destruct column as [|c0 name]; [intros _; by apply PC_empty_column|].
    destruct (bool_decide (c0 = "l"%char)) eqn:Hl;
      destruct (isNil value) eqn:Hnil; cbn [andb negb].
    2:{ apply bool_decide_eq_true in Hl. subst c0.
        destruct value; try done; intros _;
          by apply (PC_label_not_string _ _ _ name). }
    all: repeat case_decide; try done;
      destruct value; try done; intros _;
      by apply (PC_not_number _ _ _ (String c0 name)); auto.
  - intros [Hcol|Hcol|name Hcol Hnil Hs|column Hcol Hc Hn];
      unfold cellStep; rewrite Hcol; [done|done|..].
    + rewrite bool_decide_eq_true_2, Hnil by done. cbn [andb negb].
      destruct value; try done. by destruct (Hs s).
    + destruct Hc as [-> | ->].
      * rewrite bool_decide_eq_false_2 by done. cbn [andb].
        rewrite decide_True by done.
        destruct value; try done. by destruct (Hn n).
      * rewrite bool_decide_eq_false_2 by done. cbn [andb].
        rewrite decide_False, decide_True by done.
        destruct value; try done. by destruct (Hn n).
Qed.

Lemma cellLoop_panic_iff (cols : list string) (row : list JSONValue) (i : nat)
  (vars : rowVars) :
  isPanic (cellLoop cols i row vars) <->
  exists j value, row !! j = Some value /\ PanicCell cols (i + j) value.
Proof.
  revert i vars. induction row as [|value row IH]; intros i vars; cbn [cellLoop].
  - split; [done|]. by intros (j & value & ? & _).
  - pose proof (cellStep_panic_iff cols vars i value) as Hstep.
    destruct (cellStep cols vars i value) as [vars'|msg]; cbn [bindOutcome].
    + rewrite IH. split.
      * intros (j & value' & Hj & Hp). exists (S j), value'.
        split; [done|]. by rewrite Nat.add_succ_r.
      * intros ([|j] & value' & Hj & Hp).
        -- injection Hj as <-. rewrite Nat.add_0_r in Hp. by apply Hstep in Hp.
        -- exists j, value'. split; [done|]. by rewrite Nat.add_succ_r in Hp.
    + split; [|done]. intros _. exists 0%nat, value.
      split; [done|]. rewrite Nat.add_0_r. by apply Hstep.
Qed.

Lemma decodeRow_panic_iff (cols : list string) (row : list JSONValue) :
  isPanic (decodeRow cols row) <-> PanicRow cols row.
Proof. unfold decodeRow, PanicRow. by rewrite cellLoop_panic_iff. Qed.

Lemma decodeRows_panic_iff (cols : list string) (rows : list (list JSONValue)) :
  isPanic (decodeRows cols rows) <-> Exists (PanicRow cols) rows.
Proof.
  induction rows as [|row rows IH]; cbn [decodeRows].
  - split; [done|]. by intros ?%Exists_nil.
  - rewrite Exists_cons, <- IH, <- decodeRow_panic_iff.
    destruct (decodeRow cols row) as [vars|msg]; cbn [bindOutcome isPanic].
    + destruct (decodeRows cols rows); cbn; split; auto; by intros [?|?].
    + split; auto.
Qed.

Lemma decodeRows_length (cols : list string) (rows : list (list JSONValue))
  (vs : list rowVars) :
  decodeRows cols rows = Done vs -> length vs = length rows.
Proof.
  revert vs. induction rows as [|row rows IH]; intros vs; cbn [decodeRows].
  - by intros [= <-].
  - destruct (decodeRow cols row); cbn [bindOutcome]; [|done].
    destruct (decodeRows cols rows) as [vs'|]; cbn [bindOutcome]; [|done].
    intros [= <-]. cbn. by rewrite (IH vs').
Qed.

Lemma sum_list_with_fmap {A B : Type} (g : B -> nat) (f : A -> B) (l : list A) :
  sum_list_with g (f <$> l) = sum_list_with (g ∘ f) l.
Proof. induction l as [|x l IH]; cbn; [done|]. by rewrite IH. Qed.

Lemma sum_list_with_ext {A : Type} (f g : A -> nat) (l : list A) :
  Forall (fun x => f x = g x) l -> sum_list_with f l = sum_list_with g l.
Proof. induction 1 as [|x l Hx _ IH]; cbn; [done|]. by rewrite Hx, IH. Qed.

Lemma addSample_count (timeseries : gmap string TimeSeries.t) (vars : rowVars) :
  sum_list_with (fun p => length (TimeSeries.Samples p.2))
                (map_to_list (addSample timeseries vars)) =
  S (sum_list_with (fun p => length (TimeSeries.Samples p.2)) (map_to_list timeseries)).
Proof.
  unfold addSample. destruct (timeseries !! metricString (metric vars)) as [ts|] eqn:Hts.
  - rewrite <- insert_delete_eq.
    rewrite map_to_list_insert by apply lookup_delete_eq.
    rewrite <- (map_to_list_delete timeseries _ ts Hts).
    cbn. rewrite length_app. cbn. lia.
  - rewrite map_to_list_insert by done. cbn. done.
Qed.

Lemma foldl_addSample_count (vs : list rowVars) (timeseries : gmap string TimeSeries.t) :
  sum_list_with (fun p => length (TimeSeries.Samples p.2))
                (map_to_list (foldl addSample timeseries vs)) =
  (length vs + sum_list_with (fun p => length (TimeSeries.Samples p.2))
                             (map_to_list timeseries))%nat.
Proof.
  revert timeseries. induction vs as [|vars vs IH]; intros timeseries; [done|].
  cbn [foldl]. rewrite IH, addSample_count. cbn. lia.
Qed.

Lemma sortedSeries_count (timeseries : gmap string TimeSeries.t) :
  countSamples (sortedSeries timeseries) =
  sum_list_with (fun p => length (TimeSeries.Samples p.2)) (map_to_list timeseries).
Proof.
  unfold countSamples, sortedSeries.
  rewrite sum_list_with_fmap, sortStrings_perm, sum_list_with_fmap.
  apply sum_list_with_ext, Forall_forall.
  intros [key ts] Hin%elem_of_map_to_list. cbn. by rewrite Hin.
Qed.

Lemma ParseInt_syntax_zero (n : string) :
  snd (ParseInt n) = Some ErrSyntax -> fst (ParseInt n) = 0.
Proof.
  unfold ParseInt. destruct n as [|c rest]; [done|].
  destruct (if decide (c = "+"%char) then _ else _) as [neg s1].
  destruct (ParseUint s1) as [un [[]|]]; [done|..];
    repeat case_decide; done.
Qed.

Lemma cellStep_timestamp (cols : list string) (vars : rowVars) (i : nat) (n : string) :
  cols !! i = Some "timestamp" ->
  cellStep cols vars i (JNumber n) =
  Done (mkRowVars (metric vars) (v vars) (fst (Number_Int64 n))).
Proof. intros Hcol. unfold cellStep. by rewrite Hcol. Qed.

Lemma cellStep_valueRaw (cols : list string) (vars : rowVars) (i : nat) (n : string) :
  cols !! i = Some "valueRaw" ->
  cellStep cols vars i (JNumber n) =
  Done (mkRowVars (metric vars) (decodeValueRaw (fst (Number_Int64 n))) (t vars)).
Proof. intros Hcol. unfold cellStep. by rewrite Hcol. Qed.

(** C6, as the code has it: the result assembler returns no failure. It
    panics exactly when a cell lies beyond the column list, stands under
    an empty column name, is neither null nor a string in a label column,
    or is not a number in the [timestamp] or [valueRaw] column; on every
    other table it returns series that hold one sample per row. *)
Theorem responseToTimeseries_failure_modes (data : crateResponse) :
  match responseToTimeseries data with
  | Panic _ => Exists (PanicRow (Cols data)) (Rows data)
  | Done resp =>
      ~ Exists (PanicRow (Cols data)) (Rows data) /\
      countSamples resp = length (Rows data)
  end.
Proof.
  unfold responseToTimeseries. rewrite rowLoop_decodeRows.
  pose proof (decodeRows_panic_iff (Cols data) (Rows data)) as Hpanic.
  pose proof (decodeRows_length (Cols data) (Rows data)) as Hlen.
  destruct (decodeRows (Cols data) (Rows data)) as [vs|msg]; cbn [bindOutcome].
  - split; [by intros ?%Hpanic|].
    rewrite sortedSeries_count, foldl_addSample_count, map_to_list_empty.
    cbn. rewrite (Hlen vs) by done. lia.
  - by apply Hpanic.
Qed.

(** *** [runQuery] and the status of the store *)

(** C7, on the code: when the store answers a select with a status other
    than 200, [runQuery] returns no series and a nil error. *)
Theorem runQuery_status_not_ok (url : string) (q : Query.t) (query body : string)
  (result : httpResponse) :
  queryToSQL q = (query, None) ->
  json_Marshal (selectRequest query) = (body, None) ->
  client_Post url body = (result, None) ->
  StatusCode result <> StatusOK ->
  runQuery url q = Done ([], None).
Proof.
  intros Hq Hm Hp Hs. unfold runQuery. rewrite Hq, Hm, Hp.
  by rewrite decide_True.
Qed.

(** A transport error of the store, in contrast, is returned. *)
Lemma runQuery_transport_error (url : string) (q : Query.t) (query body : string)
  (result : httpResponse) (e : error) :
  queryToSQL q = (query, None) ->
  json_Marshal (selectRequest query) = (body, None) ->
  client_Post url body = (result, Some e) ->
  runQuery url q = Done ([], Some e).
Proof. intros Hq Hm Hp. unfold runQuery. by rewrite Hq, Hm, Hp. Qed.

(** ** Further properties of the translation core *)

(** *** The column identifiers of a bulk insert *)

Lemma escapeLabelName_not_fixed (s : string) : escapeLabelName s ∉ fixedColumns.
Proof.
  unfold escapeLabelName, fixedColumns, DQ.
  rewrite ?string_app_cons, ?string_app_nil_l.
  rewrite !elem_of_cons, elem_of_nil.
  intros [H|[H|[H|[]]]]; discriminate H.
Qed.

#[local] Instance escapeLabelName_Inj : Inj (=) (=) escapeLabelName.
Proof. intros s1 s2. apply escapeLabelName_inj. Qed.

(** X2: the column identifiers of a bulk insert, the escaped label names
    of the batch and the three fixed columns, are pairwise distinct: no
    label name gives the identifier of another label or of a fixed
    column. *)
Theorem writesToCrateRequest_columns_distinct (req : WriteRequest.t) :
  NoDup ((escapeLabelName <$> sortStrings (elements (labelsUsedOf req))) ++ fixedColumns).
Proof.
  apply NoDup_app. split; [|split].
  - apply (NoDup_fmap_2 _). rewrite sortStrings_perm. apply NoDup_elements.
  - intros column (name & -> & _)%list_elem_of_fmap. apply escapeLabelName_not_fixed.
  - unfold fixedColumns. repeat constructor; rewrite ?elem_of_cons, ?elem_of_nil;
      intros H; repeat destruct H as [H|H]; try discriminate H; done.
Qed.

(** *** The raw value column, read then written *)

(** X3: every int64 found in [valueRaw] decodes to a 64-bit pattern, and
    writing the decoded value stores the same int64 again. *)
Theorem valueRaw_decode_encode (val : Z) :
  MinInt64 <= val <= MaxInt64 ->
  float64_wf (decodeValueRaw val) /\ encodeValueRaw (decodeValueRaw val) = val.
Proof.
  unfold MinInt64, MaxInt64, float64_wf, decodeValueRaw, encodeValueRaw,
    uint64_of_int64, int64_of_uint64, two64, two63.
  cbn [Float64bits]. intros Hval.
  split; [Z.div_mod_to_equations; lia|].
  case_decide; Z.div_mod_to_equations; lia.
Qed.

(** *** The first rejected matcher *)

Lemma matcherLoop_app (ms1 ms2 : list LabelMatcher.t) (selectors : list string) :
  matcherLoop (ms1 ++ ms2) selectors =
  match matcherLoop ms1 selectors with
  | Continue selectors' => matcherLoop ms2 selectors'
  | Return e => Return e
  end.
Proof.
  revert selectors. induction ms1 as [|m ms1 IH]; intros selectors; [done|].
  cbn [app matcherLoop]. destruct (matcherStep selectors m); [apply IH|done].
Qed.

(** X4: the error of [queryToSQL] is that of the first matcher, in matcher
    order, whose anchored pattern the regex engine rejects; what follows
    that matcher has no part in the result. *)
Theorem queryToSQL_first_rejected (q : Query.t) (pre post : list LabelMatcher.t)
  (m : LabelMatcher.t) (e : error) :
  Query.Matchers q = pre ++ m :: post ->
  Forall (fun m' => regexError m' = None) pre ->
  regexError m = Some e ->
  queryToSQL q = (EmptyString, Some e).
Proof.
  intros Hq Hpre Hm. unfold queryToSQL. rewrite Hq, matcherLoop_app.
  destruct (matcherLoop_table pre [] Hpre) as (ps & _ & ->).
  cbn [matcherLoop]. by rewrite (matcherStep_error _ _ _ Hm).
Qed.

(** *** The errors of [runQuery] *)

(** X5: when [runQuery] returns an error it returns no series, and the
    error is that of the translation, of the marshalling of the request,
    of the transport, or of the decoding of an answer with status 200;
    the status of the answer is never the source of an error. *)
Theorem runQuery_error_sources (url : string) (q : Query.t)
  (timeseries : list TimeSeries.t) (e : error) :
  runQuery url q = Done (timeseries, Some e) ->
  timeseries = [] /\
  (snd (queryToSQL q) = Some e \/
   exists query, queryToSQL q = (query, None) /\
     (snd (json_Marshal (selectRequest query)) = Some e \/
      exists jsonRequest, json_Marshal (selectRequest query) = (jsonRequest, None) /\
        (snd (client_Post url jsonRequest) = Some e \/
         exists result, client_Post url jsonRequest = (result, None) /\
           StatusCode result = StatusOK /\
           snd (json_Decode (Body result)) = Some e))).
Proof.
  unfold runQuery.
  destruct (queryToSQL q) as [query [e1|]]; [intros [= <- <-]; auto|].
  destruct (json_Marshal (selectRequest query)) as [jsonRequest [e2|]] eqn:Hm.
  { intros [= <- <-]. split; [done|]. right. exists query. rewrite Hm. auto. }
  destruct (client_Post url jsonRequest) as [result [e3|]] eqn:Hp.
  { intros [= <- <-]. split; [done|]. right. exists query. split; [done|].
    right. exists jsonRequest. rewrite Hp. auto. }
  case_decide as Hs; [done|].
  destruct (json_Decode (Body result)) as [data [e4|]] eqn:Hd.
  { intros [= <- <-]. split; [done|]. right. exists query. split; [done|].
    right. exists jsonRequest. split; [done|].
    right. exists result. rewrite Hd. split; [done|]. split; [|done].
    by destruct (decide (StatusCode result = StatusOK)). }
  by destruct (responseToTimeseries data).
Qed.

(** *** The series of a result *)

Lemma sum_list_with_ge_length {A : Type} (f : A -> nat) (l : list A) :
  Forall (fun x => (1 <= f x)%nat) l -> (length l <= sum_list_with f l)%nat.
Proof. induction 1 as [|x l Hx _ IH]; cbn; lia. Qed.

Lemma assembled_series_nonempty (vs : list rowVars) (ts : TimeSeries.t) :
  ts ∈ sortedSeries (foldl addSample ∅ vs) -> TimeSeries.Samples ts <> [].
Proof.
  intros (key & Hkey)%sortedSeries_elem_of.
  apply assembled_lookup_Some in Hkey as (vars & Hin & Hk & ->).
  cbn [TimeSeries.Samples]. unfold samplesOf. intros Hnil.
  assert (vars ∈ filter (fun vars' => rowKey vars' = key) vs) as Hf.
  { by apply list_elem_of_filter. }
  apply (list_elem_of_fmap_2 sampleOf) in Hf. rewrite Hnil in Hf.
  by apply elem_of_nil in Hf.
Qed.

(** X6: a result never holds a series without samples; it has at most as
    many series as the table has rows, and none exactly when the table has
    no rows. *)
Theorem responseToTimeseries_no_empty_series (data : crateResponse)
  (resp : list TimeSeries.t) :
  responseToTimeseries data = Done resp ->
  Forall (fun ts => TimeSeries.Samples ts <> []) resp /\
  (length resp <= length (Rows data))%nat /\
  (resp = [] <-> Rows data = []).
Proof.
  unfold responseToTimeseries. rewrite rowLoop_decodeRows.
  destruct (decodeRows (Cols data) (Rows data)) as [vs|msg] eqn:Hvs; [|done].
  cbn [bindOutcome]. intros [= <-].
  assert (Forall (fun ts => TimeSeries.Samples ts <> [])
            (sortedSeries (foldl addSample ∅ vs))) as Hne.
  { apply Forall_forall. intros ts. apply assembled_series_nonempty. }
  assert (countSamples (sortedSeries (foldl addSample ∅ vs)) = length (Rows data))
    as Hcount.
  { rewrite sortedSeries_count, foldl_addSample_count, map_to_list_empty.
    cbn. rewrite (decodeRows_length _ _ _ Hvs). lia. }
  assert (length (sortedSeries (foldl addSample ∅ vs)) <= length (Rows data))%nat
    as Hlen.
  { rewrite <- Hcount. apply sum_list_with_ge_length.
    eapply Forall_impl; [exact Hne|]. intros ts Hts. cbn beta in Hts |- *.
    destruct (TimeSeries.Samples ts); [done|]. cbn. lia. }
  split; [done|]. split; [done|]. split.
  - intros Hnil. rewrite Hnil in Hcount. cbn in Hcount.
    by destruct (Rows data).
  - intros Hnil. rewrite Hnil in Hlen. cbn in Hlen.
    by destruct (sortedSeries _); [|cbn in Hlen; lia].
Qed.

(** *** The columns the result assembler does not read *)

Lemma cellStep_unread (cols : list string) (vars : rowVars) (i : nat)
  (column : string) (value : JSONValue) :
  cols !! i = Some column -> unreadColumn column = true ->
  cellStep cols vars i value = Done vars.
Proof.
  intros Hcol Hun. unfold cellStep. rewrite Hcol.
  destruct column as [|c0 name]; [done|]. cbn [unreadColumn] in Hun.
  apply andb_prop in Hun as [[Hl Ht]%andb_prop Hv].
  apply negb_true_iff in Hl, Ht, Hv.
  rewrite Hl. cbn [andb].
  apply bool_decide_eq_false in Ht, Hv.
  by rewrite !decide_False by done.
Qed.

Lemma cellLoop_agree (cols : list string) (row1 row2 : list JSONValue) (i : nat)
  (vars : rowVars) :
  rowsAgree cols i row1 row2 -> cellLoop cols i row1 vars = cellLoop cols i row2 vars.
Proof.
  revert row2 i vars. induction row1 as [|value1 row1 IH];
    intros [|value2 row2] i vars; cbn [rowsAgree cellLoop]; try done.
  intros [[->|(column & Hcol & Hun)] Hrest].
  - destruct (cellStep cols vars i value2); cbn [bindOutcome]; [by apply IH|done].
  - rewrite !(cellStep_unread _ _ _ column) by done. cbn [bindOutcome]. by apply IH.
Qed.

(** X7: the result assembler never reads a cell of a column that is not a
    label column, [timestamp] or [valueRaw], such as the decimal [value]
    column: two tables with the same columns whose rows differ only in
    such cells are assembled alike. *)
Theorem responseToTimeseries_unread_columns (cols : list string)
  (rows1 rows2 : list (list JSONValue)) :
  Forall2 (rowsAgree cols 0) rows1 rows2 ->
  responseToTimeseries (mkResponse cols rows1) =
  responseToTimeseries (mkResponse cols rows2).
Proof.
  intros Hrows. unfold responseToTimeseries. cbn [Cols Rows]. f_equal.
  generalize (∅ : gmap string TimeSeries.t).
  induction Hrows as [|row1 row2 rows1 rows2 Hrow _ IH]; intros timeseries; [done|].
  cbn [rowLoop]. unfold decodeRow. rewrite (cellLoop_agree _ _ _ _ _ Hrow).
  destruct (cellLoop cols 0 row2 zeroVars); cbn [bindOutcome]; [apply IH|done].
Qed.

(** *** The argument rows and the statement of a bulk insert *)

Lemma labelArg_shape (ts : TimeSeries.t) (name : string) :
  labelArg ts name = ArgNil \/
  exists value, labelArg ts name = ArgString value /\ value <> EmptyString.
Proof.
  unfold labelArg. destruct (labelValue _ _) as [value|]; [|auto].
  case_decide; eauto.
Qed.

(** X8: every argument row of a bulk insert is one cell per distinct label
    name of the batch, each NULL or a non-empty string, followed by a
    string and two integers, the first of which, the raw value, is an
    int64. An empty label value is never written as an empty string. *)
Theorem writesToCrateRequest_row_shape (req : WriteRequest.t) (args : list Arg) :
  Forall (fun ts => Forall (fun s => float64_wf (Sample.Value s)) (TimeSeries.Samples ts))
         (WriteRequest.Timeseries req) ->
  args ∈ BulkArgs (writesToCrateRequest req) ->
  exists cells str raw tsms,
    args = cells ++ [ArgString str; ArgInt64 raw; ArgInt64 tsms] /\
    length cells = size (labelsUsedOf req) /\
    Forall (fun a => a = ArgNil \/
                     exists value, a = ArgString value /\ value <> EmptyString) cells /\
    MinInt64 <= raw <= MaxInt64.
Proof.
  intros Hwf. rewrite writesToCrateRequest_BulkArgs.
  intros (rows & Hrows & Hargs)%list_elem_of_In%in_concat.
  apply list_elem_of_In, list_elem_of_fmap in Hrows as (ts & -> & Hts).
  apply list_elem_of_In, list_elem_of_fmap in Hargs as (smp & -> & Hsmp).
  unfold specSampleArgs. eexists _, _, _, _. split; [done|]. split; [|split].
  - rewrite length_fmap, sortStrings_perm. done.
  - apply Forall_fmap, Forall_forall. intros name _. apply labelArg_shape.
  - apply int64_of_uint64_range.
    rewrite Forall_forall in Hwf. specialize (Hwf ts Hts).
    rewrite Forall_forall in Hwf. by apply Hwf.
Qed.

(** X9: the statement of a bulk insert depends on the batch only through
    the set of its label names: batches that use the same names, in
    whatever series, order and number of samples, get the same statement
    text. *)
Theorem writesToCrateRequest_statement_by_names (req1 req2 : WriteRequest.t) :
  (forall name,
      (exists ts l, ts ∈ WriteRequest.Timeseries req1 /\
                    l ∈ TimeSeries.Labels ts /\ LabelPair.Name l = name) <->
      (exists ts l, ts ∈ WriteRequest.Timeseries req2 /\
                    l ∈ TimeSeries.Labels ts /\ LabelPair.Name l = name)) ->
  Stmt (writesToCrateRequest req1) = Stmt (writesToCrateRequest req2).
Proof.
  intros Hnames.
  assert (labelsUsedOf req1 = labelsUsedOf req2) as Heq.
  { apply set_eq. intros name. by rewrite !labelsUsedOf_elem_of. }
  unfold writesToCrateRequest. cbn [Stmt]. by rewrite Heq.
Qed.

(** *** The replies of the handlers *)

(** X11: [handleRead] answers with the single error 400 exactly when the
    request does not give one query: its body cannot be read, decompressed
    or unmarshalled, or it holds no query or more than one. *)
Theorem handleRead_bad_request_iff (url : string) (body : string * option error) :
  (exists msg, handleRead url body = Done [EvError msg StatusBadRequest]) <->
  ~ (exists compressed reqBuf q,
        body = (compressed, None) /\
        snappy_Decode compressed = (reqBuf, None) /\
        unmarshalReadRequest reqBuf = ([q], None)).
Proof.
  unfold handleRead. destruct body as [compressed [e|]].
  { split; [|eauto]. intros _ (? & ? & ? & [=] & _). }
  destruct (snappy_Decode compressed) as [reqBuf [e|]] eqn:Hd.
  { split; [|eauto]. intros _ (? & ? & ? & [= <-] & Hd' & _). congruence. }
  destruct (unmarshalReadRequest reqBuf) as [queries [e|]] eqn:Hu.
  { split; [|eauto]. intros _ (? & ? & ? & [= <-] & Hd' & Hu'). congruence. }
  destruct queries as [|q [|q' queries]].
  - split; [|eauto]. intros _ (? & ? & ? & [= <-] & Hd' & Hu'). congruence.
  - split; [|intros Hn; destruct Hn; eauto 10].
    intros (msg & Hr) _. revert Hr.
    destruct (runQuery url q) as [[result [e|]]|]; cbn [bindOutcome]; [done| |done].
    destruct (marshalReadResponse result) as [data [e|]]; done.
  - split; [|eauto]. intros _ (? & ? & ? & [= <-] & Hd' & Hu'). congruence.
Qed.

(** X12: when the store answers the select of a read request with a status
    other than 200, [handleRead] sends no error: it sets the protobuf
    content type and writes the encoding of a result without series. *)
Theorem handleRead_store_status_ignored (url compressed reqBuf : string) (q : Query.t)
  (query jsonRequest data : string) (result : httpResponse) :
  snappy_Decode compressed = (reqBuf, None) ->
  unmarshalReadRequest reqBuf = ([q], None) ->
  queryToSQL q = (query, None) ->
  json_Marshal (selectRequest query) = (jsonRequest, None) ->
  client_Post url jsonRequest = (result, None) ->
  StatusCode result <> StatusOK ->
  marshalReadResponse [] = (data, None) ->
  handleRead url (compressed, None) =
  Done ([EvSetHeader "Content-Type" "application/x-protobuf";
         EvWrite (snappy_Encode data)] ++
        match w_Write (snappy_Encode data) with
        | Some e => [EvError e StatusInternalServerError]
        | None => []
        end).
Proof.
  intros Hd Hu Hq Hm Hp Hs Hr. unfold handleRead, runQuery.
  rewrite Hd, Hu, Hq, Hm, Hp. rewrite decide_True by done.
  cbn [bindOutcome]. by rewrite Hr.
Qed.

(** X13: [handleWrite] makes no call on the response writer, which leaves
    the reply at status 200, exactly when the body was read, decompressed
    and unmarshalled, the request was marshalled and posted, and the store
    answered 200; in every other case it sends one error, with status 400
    or 500. *)
Theorem handleWrite_reply (url : string) (body : string * option error) :
  (handleWrite url body = [] <->
   exists compressed reqBuf req jsonRequest resp,
     body = (compressed, None) /\
     snappy_Decode compressed = (reqBuf, None) /\
     unmarshalWriteRequest reqBuf = (req, None) /\
     json_Marshal (writesToCrateRequest req) = (jsonRequest, None) /\
     client_Post url jsonRequest = (resp, None) /\
     StatusCode resp = StatusOK) /\
  (handleWrite url body = [] \/
   exists msg code,
     handleWrite url body = [EvError msg code] /\
     (code = StatusBadRequest \/ code = StatusInternalServerError)).
Proof.
  unfold handleWrite. destruct body as [compressed [e|]].
  { split; [|eauto 10]. split; [done|]. intros (? & ? & ? & ? & ? & [=] & _). }
  destruct (snappy_Decode compressed) as [reqBuf [e|]] eqn:Hd.
  { split; [|eauto 10]. split; [done|].
    intros (? & ? & ? & ? & ? & [= <-] & ? & _). congruence. }
  destruct (unmarshalWriteRequest reqBuf) as [req [e|]] eqn:Hu.
  { split; [|eauto 10]. split; [done|].
    intros (? & ? & ? & ? & ? & [= <-] & ? & ? & _). congruence. }
  destruct (json_Marshal (writesToCrateRequest req)) as [jsonRequest [e|]] eqn:Hm.
  { split; [|eauto 10]. split; [done|].
    intros (? & ? & ? & ? & ? & [= <-] & ? & ? & ? & _). congruence. }
  destruct (client_Post url jsonRequest) as [resp [e|]] eqn:Hp.
  { split; [|eauto 10]. split; [done|].
    intros (? & ? & ? & ? & ? & [= <-] & ? & ? & ? & ? & _). congruence. }
  case_decide as Hs.
  - split; [|eauto 10]. split; [done|].
    intros (? & ? & ? & ? & ? & [= <-] & ? & ? & ? & ? & ?). congruence.
  - split; [|by left]. split; [|done]. intros _.
    exists compressed, reqBuf, req, jsonRequest, resp.
    repeat split; try done.
Qed.

End Adapter.

(** *** The length of an escaped string *)

Lemma string_length_app (s1 s2 : string) :
  String.length (s1 +:+ s2) = (String.length s1 + String.length s2)%nat.
Proof. induction s1 as [|c s1 IH]; [done|]. rewrite string_app_cons. cbn. by rewrite IH. Qed.

Lemma escaper_Replace_clean (s : string) :
  countSpecial s = 0%nat -> escaper_Replace s = s.
Proof.
  induction s as [|c s IH]; [done|]. cbn [countSpecial escaper_Replace].
  case_decide as Hc; [done|]. intros Hs.
  destruct (replacementOf_cases c) as [[_ Hc']|[-> _]]; [done|].
  rewrite string_app_cons, string_app_nil_l. by rewrite IH.
Qed.

(** X1: the escaper lengthens a string by one byte for each backslash,
    double quote and single quote in it, and returns a string unchanged
    exactly when it holds none of them. *)
Theorem escaper_Replace_length (s : string) :
  String.length (escaper_Replace s) = (String.length s + countSpecial s)%nat /\
  (escaper_Replace s = s <-> countSpecial s = 0%nat).
Proof.
  assert (String.length (escaper_Replace s) = (String.length s + countSpecial s)%nat)
    as Hlen.
  { induction s as [|c s IH]; [done|]. cbn [countSpecial escaper_Replace].
    rewrite string_length_app, IH.
    destruct (replacementOf_cases c) as [[-> Hc]|[-> Hc]].
    - rewrite decide_True by done. cbn. lia.
    - rewrite decide_False by (intros [?|[?|?]]; by destruct Hc as (? & ? & ?)). cbn. lia. }
  split; [done|]. split; [|apply escaper_Replace_clean].
  intros Heq. rewrite Heq in Hlen. lia.
Qed.

(** *** A written row, read back *)

Lemma digitOf_pretty_N_char (k : N) :
  (k < 10)%N -> digitOf (pretty_N_char k) = Some (Z.of_N k).
Proof.
  intros Hk.
  assert (k = 0 \/ k = 1 \/ k = 2 \/ k = 3 \/ k = 4 \/ k = 5 \/ k = 6 \/ k = 7
          \/ k = 8 \/ k = 9)%N as Hcases by lia.
  repeat destruct Hcases as [->|Hcases]; try subst k; reflexivity.
Qed.

Lemma pretty_N_char_not_sign (k : N) :
  pretty_N_char k <> "+"%char /\ pretty_N_char k <> "-"%char.
Proof. unfold pretty_N_char. repeat case_match; done. Qed.

Lemma parseUintLoop_pretty_N_go (x : N) (s : string) :
  Z.of_N x <= MaxUint64 ->
  parseUintLoop (pretty_N_go x s) 0 = parseUintLoop s (Z.of_N x).
Proof.
  revert s. induction (N.lt_wf_0 x) as [x _ IH]; intros s Hx.
  destruct (decide (x = 0%N)) as [->|Hx0]; [by rewrite pretty_N_go_0|].
  assert (0 < x)%N as Hpos by lia.
  rewrite pretty_N_go_step by done.
  assert (Z.of_N (x `div` 10) = Z.of_N x / 10) as Hdiv by apply N2Z.inj_div.
  assert (Z.of_N (x `mod` 10) = Z.of_N x mod 10) as Hmod by apply N2Z.inj_mod.
  assert (MaxUint64 = 18446744073709551615) as Hmax by reflexivity.
  assert (two64 = 18446744073709551616) as H64 by reflexivity.
  rewrite IH; [|by apply N.div_lt|rewrite Hdiv; Z.div_mod_to_equations; lia].
  cbn [parseUintLoop].
  rewrite digitOf_pretty_N_char by (by apply N.mod_lt).
  rewrite Hdiv, Hmod.
  rewrite decide_False by (rewrite Hmax; Z.div_mod_to_equations; lia).
  assert ((Z.of_N x / 10 * 10) mod two64 = Z.of_N x / 10 * 10) as ->.
  { apply Z.mod_small. rewrite H64. Z.div_mod_to_equations. lia. }
  assert ((Z.of_N x / 10 * 10 + Z.of_N x mod 10) mod two64 = Z.of_N x) as ->.
  { rewrite Z.mod_small; [|rewrite H64]; Z.div_mod_to_equations; lia. }
  rewrite decide_False; [done|]. Z.div_mod_to_equations. lia.
Qed.

Lemma pretty_N_go_head (x : N) (s : string) :
  (0 < x)%N ->
  exists c rest, pretty_N_go x s = String c rest /\ c <> "+"%char /\ c <> "-"%char.
Proof.
  revert s. induction (N.lt_wf_0 x) as [x _ IH]; intros s Hx.
  rewrite pretty_N_go_step by done.
  destruct (decide (x `div` 10 = 0)%N) as [->|Hd].
  - rewrite pretty_N_go_0. eexists _, _. split; [done|]. apply pretty_N_char_not_sign.
  - apply IH; [by apply N.div_lt|by apply N.neq_0_lt_0].
Qed.

(** The decimal text of an int64 is read back by [Int64] as that int64. *)
Lemma ParseInt_pretty (z : Z) :
  MinInt64 <= z <= MaxInt64 -> ParseInt (pretty z) = (z, None).
Proof.
  assert (MaxUint64 = 18446744073709551615) as Hmax by reflexivity.
  assert (two64 = 18446744073709551616) as H64 by reflexivity.
  assert (two63 = 9223372036854775808) as H63 by reflexivity.
  unfold MinInt64, MaxInt64. rewrite H63. intros Hz.
  destruct z as [|p|p]; [reflexivity|..].
  - unfold pretty, pretty_Z, pretty, pretty_positive, pretty, pretty_N.
    rewrite decide_False by done.
    destruct (pretty_N_go_head (N.pos p) EmptyString) as (c & rest & Heq & Hc1 & Hc2);
      [lia|].
    pose proof (parseUintLoop_pretty_N_go (N.pos p) EmptyString) as Hloop.
    rewrite Heq in Hloop |- *. unfold ParseInt.
    rewrite !decide_False by done. unfold ParseUint.
    rewrite Hloop by (rewrite Hmax; cbn; lia). cbn [parseUintLoop].
    change (Z.of_N (N.pos p)) with (Z.pos p).
    rewrite decide_False by (rewrite H63; lia).
    rewrite decide_False by (intros [? _]; done).
    unfold int64_of_uint64. rewrite decide_True by (rewrite H63; lia). done.
  - unfold pretty, pretty_Z, pretty, pretty_positive, pretty, pretty_N.
    rewrite decide_False by done. rewrite string_app_cons, string_app_nil_l.
    destruct (pretty_N_go_head (N.pos p) EmptyString) as (c & rest & Heq & Hc1 & Hc2);
      [lia|].
    pose proof (parseUintLoop_pretty_N_go (N.pos p) EmptyString) as Hloop.
    rewrite Heq in Hloop |- *. unfold ParseInt.
    rewrite decide_False by done. rewrite decide_True by done. unfold ParseUint.
    rewrite Hloop by (rewrite Hmax; cbn; lia). cbn [parseUintLoop].
    change (Z.of_N (N.pos p)) with (Z.pos p).
    rewrite decide_False by (intros [? _]; done).
    rewrite decide_False by (rewrite H63; lia).
    unfold int64_of_uint64, wrapInt64. rewrite H63, H64.
    f_equal. case_decide; Z.div_mod_to_equations; lia.
Qed.

Lemma cellLoop_app (cols : list string) (row1 row2 : list JSONValue) (i : nat)
  (vars : rowVars) :
  cellLoop cols i (row1 ++ row2) vars =
  bindOutcome (cellLoop cols i row1 vars) (cellLoop cols (i + length row1) row2).
Proof.
  revert i vars. induction row1 as [|value row1 IH]; intros i vars.
  - cbn. by rewrite Nat.add_0_r.
  - cbn [app cellLoop length].
    destruct (cellStep cols vars i value); cbn [bindOutcome]; [|done].
    rewrite IH. by rewrite Nat.add_succ_r.
Qed.

(** The cell loop over the label cells of an argument row. *)
Lemma cellLoop_label_cells (f : string -> Arg) (labels pre : list string)
  (rest : list string) (vars : rowVars) :
  (forall name, f name = ArgNil \/ exists value, f name = ArgString value) ->
  cellLoop (pre ++ (String "l" <$> labels) ++ rest) (length pre)
           (argCell ∘ f <$> labels) vars =
  Done (mkRowVars
          (foldl (fun m name =>
                    match f name with ArgString value => <[name := value]> m | _ => m end)
                 (metric vars) labels)
          (v vars) (t vars)).
Proof.
  intros Hf. revert pre vars. induction labels as [|name labels IH]; intros pre vars.
  - cbn. by destruct vars.
  - cbn [fmap list_fmap cellLoop foldl app]. unfold cellStep at 1.
    rewrite list_lookup_middle by done.
    assert (forall rest', pre ++ String "l" name :: rest'
                          = (pre ++ [String "l" name]) ++ rest') as Hassoc.
    { intros rest'. by rewrite <- app_assoc. }
    assert (S (length pre) = length (pre ++ [String "l" name])) as Hlen.
    { rewrite length_app. cbn. lia. }
    destruct (Hf name) as [Hn|(value & Hn)]; cbn [compose]; rewrite Hn; cbn [argCell isNil].
    + rewrite bool_decide_eq_true_2 by done. cbn [andb negb].
      rewrite !decide_False by done. cbn [bindOutcome].
      rewrite Hassoc, Hlen. rewrite IH. done.
    + rewrite bool_decide_eq_true_2 by done. cbn [andb negb bindOutcome].
      rewrite Hassoc, Hlen. rewrite IH. done.
Qed.

Lemma label_cells_metric (f : string -> Arg) (labels : list string) (m : Metric)
  (name : string) :
  foldl (fun m name =>
           match f name with ArgString value => <[name := value]> m | _ => m end)
        m labels !! name =
  match f name with
  | ArgString value => if decide (name ∈ labels) then Some value else m !! name
  | _ => m !! name
  end.
Proof.
  revert m. induction labels as [|name' labels IH]; intros m; cbn [foldl].
  - by destruct (f name).
  - rewrite IH. destruct (f name) as [|value|] eqn:Hn.
    + destruct (f name') eqn:Hn'; try done.
      rewrite lookup_insert_ne; [done|]. intros ->. congruence.
    + destruct (decide (name ∈ labels)) as [Hin|Hnin].
      * rewrite decide_True; [done|by right].
      * destruct (decide (name' = name)) as [->|Hne].
        -- rewrite Hn, lookup_insert_eq. rewrite decide_True; [done|left].
        -- rewrite decide_False by (intros [?|?]%elem_of_cons; done).
           destruct (f name'); try done. by rewrite lookup_insert_ne.
    + destruct (f name') eqn:Hn'; try done.
      rewrite lookup_insert_ne; [done|]. intros ->. congruence.
Qed.

Lemma cellLoop_fixed_cells (front : list string) (vars : rowVars) (str : string)
  (raw tsms : Z) :
  MinInt64 <= raw <= MaxInt64 ->
  MinInt64 <= tsms <= MaxInt64 ->
  cellLoop (front ++ ["value"; "valueRaw"; "timestamp"]) (length front)
           [JString str; JNumber (pretty raw); JNumber (pretty tsms)] vars =
  Done (mkRowVars (metric vars) (decodeValueRaw raw) tsms).
Proof.
  intros Hraw Hts.
  assert (forall k, (front ++ ["value"; "valueRaw"; "timestamp"]) !! (length front + k)%nat
                    = ["value"; "valueRaw"; "timestamp"] !! k) as Hlook.
  { intros k. rewrite lookup_app_r by lia. f_equal. lia. }
  cbn [cellLoop]. unfold cellStep.
  rewrite <- (Nat.add_0_r (length front)) at 1. rewrite Hlook. cbn [lookup list_lookup].
  rewrite bool_decide_eq_false_2 by done. cbn [andb].
  rewrite !decide_False by done. cbn [bindOutcome].
  replace (S (length front)) with (length front + 1)%nat by lia.
  rewrite Hlook. cbn [lookup list_lookup].
  rewrite bool_decide_eq_false_2 by done. cbn [andb].
  rewrite decide_False, decide_True by done. cbn [bindOutcome].
  replace (S (length front + 1)) with (length front + 2)%nat by lia.
  rewrite Hlook. cbn [lookup list_lookup].
  rewrite bool_decide_eq_false_2 by done. cbn [andb].
  rewrite decide_True by done. cbn [bindOutcome metric v t].
  unfold Number_Int64. rewrite !ParseInt_pretty by done. done.
Qed.

Lemma labelValue_Some_elem_of (labels : list LabelPair.t) (name : string) :
  is_Some (labelValue labels name) ->
  exists l, l ∈ labels /\ LabelPair.Name l = name.
Proof.
  induction labels as [|l labels IH]; cbn [labelValue]; [by intros [? ?]|].
  destruct (labelValue labels name) as [value'|].
  - intros _. destruct IH as (l' & Hl' & Hn); [done|]. exists l'. split; [by right|done].
  - case_decide; [|by intros [? ?]]. intros _. exists l. split; [left|done].
Qed.

(** X10: the argument row that the write builder makes for a sample, held
    under the columns of the insert and read by the cell loop of the
    result assembler, gives the labels of the series that have a non-empty
    value, the sample value bit for bit, and the timestamp. *)
Theorem written_row_read_back (formatFloat : float64 -> string)
  (req : WriteRequest.t) (ts : TimeSeries.t) (smp : Sample.t) :
  ts ∈ WriteRequest.Timeseries req ->
  float64_wf (Sample.Value smp) ->
  MinInt64 <= Sample.TimestampMs smp <= MaxInt64 ->
  exists vars,
    decodeRow (insertColumns (sortStrings (elements (labelsUsedOf req))))
      (argCell <$> sampleArgs formatFloat (sortStrings (elements (labelsUsedOf req)))
                              (seriesMetric ts) smp) = Done vars /\
    v vars = Sample.Value smp /\
    t vars = Sample.TimestampMs smp /\
    forall name, metric vars !! name = nonEmptyLabel ts name.
Proof.
  intros Hts Hwf Hrange.
  set (labels := sortStrings (elements (labelsUsedOf req))).
  set (f := fun l => if decide (default EmptyString (seriesMetric ts !! l) = EmptyString)
                     then ArgNil
                     else ArgString (default EmptyString (seriesMetric ts !! l))).
  assert (forall name, f name = ArgNil \/ exists value, f name = ArgString value) as Hf.
  { intros name. unfold f. case_decide; eauto. }
  eexists. split; [|split; [|split]].
  - unfold decodeRow, sampleArgs, insertColumns. fold f.
    rewrite <- !app_assoc. cbn [app].
    rewrite fmap_app, <- list_fmap_compose, cellLoop_app.
    pose proof (cellLoop_label_cells f labels [] ["value"; "valueRaw"; "timestamp"]
                  zeroVars Hf) as Hlabels.
    cbn [app length] in Hlabels. rewrite Hlabels. cbn [bindOutcome].
    rewrite length_fmap. cbn [Nat.add fmap list_fmap argCell].
    rewrite <- (length_fmap (String "l") labels).
    apply cellLoop_fixed_cells; [by apply int64_of_uint64_range|done].
  - cbn [v]. unfold decodeValueRaw. rewrite uint64_int64_uint64 by done.
    by destruct (Sample.Value smp).
  - done.
  - intros name. cbn [metric zeroVars]. rewrite label_cells_metric.
    unfold nonEmptyLabel, f. rewrite seriesMetric_lookup.
    destruct (labelValue (TimeSeries.Labels ts) name) as [value|] eqn:Hlv;
      cbn [default from_option id].
    + destruct (decide (value = EmptyString)) as [Hv|Hv]; [apply lookup_empty|].
      rewrite decide_True; [done|].
      apply sortStrings_elem_of, elem_of_elements, labelsUsedOf_elem_of.
      destruct (labelValue_Some_elem_of (TimeSeries.Labels ts) name) as (l & Hl & Hn);
        [by rewrite Hlv|]. eauto.
    + rewrite decide_True by done. apply lookup_empty.
Qed.

(** *** Queries without regex matchers *)

Lemma matcherStep_without_regex
  (MatchString1 MatchString2 : string -> string -> bool * option error)
  (selectors : list string) (m : LabelMatcher.t) :
  isRegexType (LabelMatcher.Type_ m) = false ->
  matcherStep MatchString1 selectors m = matcherStep MatchString2 selectors m /\
  regexError MatchString1 m = None.
Proof.
  unfold matcherStep, regexError. by destruct (LabelMatcher.Type_ m).
Qed.

(** X14: a query without regex matchers is translated without the regex
    engine: whatever the engine answers, the statement is the same and the
    translation does not fail. *)
Theorem queryToSQL_without_regex
  (MatchString1 MatchString2 : string -> string -> bool * option error) (q : Query.t) :
  Forall (fun m => isRegexType (LabelMatcher.Type_ m) = false) (Query.Matchers q) ->
  queryToSQL MatchString1 q = queryToSQL MatchString2 q /\
  snd (queryToSQL MatchString1 q) = None.
Proof.
  intros Hq. split.
  - unfold queryToSQL.
    assert (forall selectors,
              matcherLoop MatchString1 (Query.Matchers q) selectors =
              matcherLoop MatchString2 (Query.Matchers q) selectors) as ->; [|done].
    induction Hq as [|m ms Hm _ IH]; intros selectors; [done|].
    cbn [matcherLoop].
    rewrite (proj1 (matcherStep_without_regex MatchString1 MatchString2 selectors m Hm)).
    destruct (matcherStep MatchString2 selectors m); [apply IH|done].
  - destruct (matcherLoop_table MatchString1 (Query.Matchers q) []) as (ps & _ & Hloop).
    { eapply Forall_impl; [exact Hq|]. intros m Hm.
      exact (proj2 (matcherStep_without_regex MatchString1 MatchString1 [] m Hm)). }
    unfold queryToSQL. by rewrite Hloop.
Qed.

(** ** The adapter on the examples *)

Lemma matcher_predicates_example :
  exists ps,
    matcherLoop sampleMatchString exampleMatchers [] = Continue ps /\
    Forall2 (TablePredicate sampleMatchString) exampleMatchers ps /\
    forall ps', Forall2 (TablePredicate sampleMatchString) exampleMatchers ps' -> ps' = ps.
Proof.
  apply (matcher_predicates_follow_table sampleMatchString exampleMatchers).
  repeat constructor.
Defined.

Example exampleQuery_statement :
  queryToSQL sampleMatchString exampleQuery =
  ("SELECT * from metrics WHERE ("
     +:+ DQ +:+ "l__name__" +:+ DQ +:+ " = 'up') AND ("
     +:+ DQ +:+ "lenv" +:+ DQ +:+ " IS NOT NULL) AND ("
     +:+ DQ +:+ "ljob" +:+ DQ +:+ " ~ '^(?:.*)$' OR " +:+ DQ +:+ "ljob" +:+ DQ
     +:+ " IS NULL) AND ("
     +:+ DQ +:+ "linstance" +:+ DQ +:+ " !~ '^(?:up.+)$' OR "
     +:+ DQ +:+ "linstance" +:+ DQ +:+ " IS NULL) AND (timestamp <= 2000)"
     +:+ " AND (timestamp >= 1000) ORDER BY timestamp", None).
Proof. vm_compute. reflexivity. Qed.

Lemma valueRaw_roundtrip_NaN :
  decodeValueRaw (encodeValueRaw NaN) = NaN /\
  Float64bits (decodeValueRaw (encodeValueRaw NaN)) = Float64bits NaN.
Proof.
  apply (valueRaw_roundtrip NaN).
  unfold float64_wf, NaN, two64. cbn. lia.
Defined.

Example valueRaw_special_values :
  encodeValueRaw PosInf = 9218868437227405312 /\
  decodeValueRaw 9218868437227405312 = PosInf /\
  encodeValueRaw NegInf = -4503599627370496 /\
  decodeValueRaw (-4503599627370496) = NegInf /\
  decodeValueRaw (encodeValueRaw StaleNaN) = StaleNaN.
Proof. vm_compute. repeat split. Qed.

Lemma queryToSQL_statement_example :
  exists ps,
    Forall2 (TablePredicate sampleMatchString) (Query.Matchers exampleQuery) ps /\
    queryToSQL sampleMatchString exampleQuery =
      ("SELECT * from metrics WHERE "
         +:+ Join (ps ++ ["(timestamp <= " +:+ pretty (Query.EndTimestampMs exampleQuery) +:+ ")";
                          "(timestamp >= " +:+ pretty (Query.StartTimestampMs exampleQuery) +:+ ")"])
                  " AND "
         +:+ " ORDER BY timestamp", None) /\
    BulkArgs (selectRequest (fst (queryToSQL sampleMatchString exampleQuery))) = [].
Proof.
  apply (queryToSQL_statement sampleMatchString exampleQuery).
  repeat constructor.
Defined.

Lemma responseToTimeseries_groups_example :
  exists resp,
    responseToTimeseries sampleMetricString exampleTable = Done resp /\
    StronglySorted string_lt (seriesKey sampleMetricString <$> resp) /\
    forall ts, ts ∈ resp ->
      TimeSeries.Samples ts =
      samplesOf sampleMetricString (seriesKey sampleMetricString ts) exampleVars.
Proof.
  destruct (responseToTimeseries_groups sampleMetricString exampleTable exampleVars)
    as (resp & Hresp & Hkeys & _ & Hsamples & _).
  - repeat constructor.
  - exists resp. split; [exact Hresp|]. split; [exact Hkeys|].
    intros ts Hts. exact (proj1 (Hsamples ts Hts)).
Defined.

Example exampleTable_series :
  responseToTimeseries sampleMetricString exampleTable =
  Done [ TimeSeries.mk [LabelPair.mk "a" "1"]
           [Sample.mk (Float64frombits 4607182418800017408) 1000; Sample.mk NaN 2000];
         TimeSeries.mk [LabelPair.mk "b" "2"] [Sample.mk NegInf 1500] ].
Proof. vm_compute. reflexivity. Qed.

Example exampleBatch_request :
  writesToCrateRequest sampleFormatFloat exampleBatch =
  {| Stmt := "INSERT INTO metrics (" +:+ DQ +:+ "la" +:+ DQ +:+ ", " +:+ DQ +:+ "lb" +:+ DQ
               +:+ ", " +:+ DQ +:+ "value" +:+ DQ +:+ ", " +:+ DQ +:+ "valueRaw" +:+ DQ
               +:+ ", " +:+ DQ +:+ "timestamp" +:+ DQ +:+ ") VALUES (?, ?,  ?, ?, ?)";
     BulkArgs :=
       [ [ArgString "1"; ArgNil; ArgString "NaN"; ArgInt64 9221120237041090561; ArgInt64 5];
         [ArgString "1"; ArgNil; ArgString "+Inf"; ArgInt64 9218868437227405312; ArgInt64 6];
         [ArgNil; ArgString "2"; ArgString "-Inf"; ArgInt64 (-4503599627370496); ArgInt64 7] ] |}.
Proof. vm_compute. reflexivity. Qed.

Example Number_Int64_examples :
  Number_Int64 "1000" = (1000, None) /\
  Number_Int64 "-4503599627370496" = (-4503599627370496, None) /\
  Number_Int64 "1.5" = (0, Some ErrSyntax) /\
  Number_Int64 "1e3" = (0, Some ErrSyntax) /\
  Number_Int64 "9223372036854775808" = (MaxInt64, Some ErrRange) /\
  Number_Int64 "-9223372036854775809" = (MinInt64, Some ErrRange).
Proof. vm_compute. repeat split. Qed.

(** C6, against the claim: a table with a timestamp cell that is not an
    integer, and a table whose row has no cells, are both assembled without
    any failure, into a sample with the timestamp 0 and into a sample that
    is zero altogether. *)
Lemma responseToTimeseries_silent_zero :
  MalformedTable fractionalTable /\
  responseToTimeseries sampleMetricString fractionalTable =
    Done [ TimeSeries.mk [] [Sample.mk (Float64frombits 4607182418800017408) 0] ] /\
  MalformedTable shortRowTable /\
  responseToTimeseries sampleMetricString shortRowTable =
    Done [ TimeSeries.mk [] [Sample.mk (Float64frombits 0) 0] ].
Proof.
  split; [|split; [|split]].
  - apply Exists_cons_hd. right.
    exists 0%nat, "timestamp", (JNumber "1.5"). repeat split; auto.
  - vm_compute. reflexivity.
  - apply Exists_cons_hd. left. cbn. discriminate.
  - vm_compute. reflexivity.
Qed.

Lemma runQuery_status_500 :
  runQuery sampleMatchString sampleMetricString sampleMarshal (samplePost 500) sampleDecode
    "http://localhost:4200/_sql" exampleQuery = Done ([], None).
Proof.
  eapply (runQuery_status_not_ok sampleMatchString sampleMetricString sampleMarshal
            (samplePost 500) sampleDecode).
  - vm_compute. reflexivity.
  - reflexivity.
  - reflexivity.
  - cbn. discriminate.
Defined.

Lemma queryToSQL_invalid_regex_example :
  exists m e,
    m ∈ Query.Matchers invalidQuery /\
    isRegexType (LabelMatcher.Type_ m) = true /\
    snd (sampleMatchString (anchored (LabelMatcher.Value m)) EmptyString) = Some e /\
    queryToSQL sampleMatchString invalidQuery = (EmptyString, Some e).
Proof.
  apply (queryToSQL_invalid_regex sampleMatchString invalidQuery).
  apply Exists_cons_tl, Exists_cons_hd. cbv. discriminate.
Defined.

Lemma writesToCrateRequest_no_labels_example :
  Stmt (writesToCrateRequest sampleFormatFloat unlabelledBatch) =
    "INSERT INTO metrics (, " +:+ DQ +:+ "value" +:+ DQ +:+ ", " +:+ DQ +:+ "valueRaw"
      +:+ DQ +:+ ", " +:+ DQ +:+ "timestamp" +:+ DQ +:+ ") VALUES ( ?, ?, ?)" /\
  Forall (fun args => length args = 3%nat)
         (BulkArgs (writesToCrateRequest sampleFormatFloat unlabelledBatch)) /\
  length (BulkArgs (writesToCrateRequest sampleFormatFloat unlabelledBatch)) =
    length (concat (TimeSeries.Samples <$> WriteRequest.Timeseries unlabelledBatch)).
Proof.
  apply (writesToCrateRequest_no_labels sampleFormatFloat unlabelledBatch).
  repeat constructor.
Defined.

(** ** The further properties on the examples *)

Lemma valueRaw_decode_encode_example :
  float64_wf (decodeValueRaw (-4503599627370496)) /\
  encodeValueRaw (decodeValueRaw (-4503599627370496)) = -4503599627370496.
Proof.
  apply (valueRaw_decode_encode (-4503599627370496)).
  unfold MinInt64, MaxInt64, two63. cbn. lia.
Defined.

Lemma queryToSQL_first_rejected_example :
  queryToSQL sampleMatchString invalidQuery =
  (EmptyString, Some "error parsing regexp: missing closing ): `^(?:()$`").
Proof.
  apply (queryToSQL_first_rejected sampleMatchString invalidQuery
           [LabelMatcher.mk MatchType_EQUAL "__name__" "up"] []
           (LabelMatcher.mk MatchType_REGEX_MATCH "job" "(")).
  - reflexivity.
  - repeat constructor.
  - reflexivity.
Defined.

Lemma runQuery_error_sources_example :
  @nil TimeSeries.t = [] /\
  (snd (queryToSQL sampleMatchString invalidQuery)
     = Some "error parsing regexp: missing closing ): `^(?:()$`" \/
   exists query, queryToSQL sampleMatchString invalidQuery = (query, None) /\
     (snd (sampleMarshal (selectRequest query))
        = Some "error parsing regexp: missing closing ): `^(?:()$`" \/
      exists jsonRequest, sampleMarshal (selectRequest query) = (jsonRequest, None) /\
        (snd (samplePost 200 "http://localhost:4200/_sql" jsonRequest)
           = Some "error parsing regexp: missing closing ): `^(?:()$`" \/
         exists result,
           samplePost 200 "http://localhost:4200/_sql" jsonRequest = (result, None) /\
           StatusCode result = StatusOK /\
           snd (sampleDecode (Body result))
             = Some "error parsing regexp: missing closing ): `^(?:()$`"))).
Proof.
  apply (runQuery_error_sources sampleMatchString sampleMetricString sampleMarshal
           (samplePost 200) sampleDecode "http://localhost:4200/_sql" invalidQuery).
  vm_compute. reflexivity.
Defined.

Lemma responseToTimeseries_no_empty_series_example :
  exists resp,
    responseToTimeseries sampleMetricString exampleTable = Done resp /\
    Forall (fun ts => TimeSeries.Samples ts <> []) resp /\
    (length resp <= length (Rows exampleTable))%nat /\
    (resp = [] <-> Rows exampleTable = []).
Proof.
  eexists. split; [vm_compute; reflexivity|].
  apply (responseToTimeseries_no_empty_series sampleMetricString exampleTable).
  vm_compute. reflexivity.
Defined.

Lemma responseToTimeseries_unread_columns_example :
  responseToTimeseries sampleMetricString exampleTable =
  responseToTimeseries sampleMetricString exampleTable'.
Proof.
  apply (responseToTimeseries_unread_columns sampleMetricString
           (Cols exampleTable) (Rows exampleTable) (Rows exampleTable')).
  unfold exampleTable, exampleTable'. cbn [Cols Rows].
  repeat (apply List.Forall2_cons;
          [cbn; repeat split;
           first [left; reflexivity | right; exists "value"; split; reflexivity]|]).
  apply List.Forall2_nil.
Defined.

Lemma writesToCrateRequest_row_shape_example :
  exists cells str raw tsms,
    [ArgString "1"; ArgNil; ArgString "NaN"; ArgInt64 9221120237041090561; ArgInt64 5]
      = cells ++ [ArgString str; ArgInt64 raw; ArgInt64 tsms] /\
    length cells = size (labelsUsedOf exampleBatch) /\
    Forall (fun a => a = ArgNil \/
                     exists value, a = ArgString value /\ value <> EmptyString) cells /\
    MinInt64 <= raw <= MaxInt64.
Proof.
  apply (writesToCrateRequest_row_shape sampleFormatFloat exampleBatch).
  - repeat constructor; unfold float64_wf, two64; cbn; lia.
  - vm_compute. left.
Defined.

Lemma writesToCrateRequest_statement_by_names_example :
  Stmt (writesToCrateRequest sampleFormatFloat exampleBatch) =
  Stmt (writesToCrateRequest sampleFormatFloat swappedBatch).
Proof.
  apply (writesToCrateRequest_statement_by_names sampleFormatFloat exampleBatch swappedBatch).
  intros name. rewrite <- !labelsUsedOf_elem_of.
  assert (labelsUsedOf exampleBatch = labelsUsedOf swappedBatch) as ->; [|reflexivity].
  vm_compute. reflexivity.
Defined.

Lemma written_row_read_back_example :
  exists vars,
    decodeRow (insertColumns (sortStrings (elements (labelsUsedOf exampleBatch))))
      (argCell <$> sampleArgs sampleFormatFloat
                     (sortStrings (elements (labelsUsedOf exampleBatch)))
                     (seriesMetric (TimeSeries.mk [LabelPair.mk "b" "2"] [Sample.mk NegInf 7]))
                     (Sample.mk NegInf 7)) = Done vars /\
    v vars = NegInf /\
    t vars = 7 /\
    forall name,
      metric vars !! name =
      nonEmptyLabel (TimeSeries.mk [LabelPair.mk "b" "2"] [Sample.mk NegInf 7]) name.
Proof.
  apply (written_row_read_back sampleFormatFloat exampleBatch
           (TimeSeries.mk [LabelPair.mk "b" "2"] [Sample.mk NegInf 7])
           (Sample.mk NegInf 7)).
  - right. left.
  - unfold float64_wf, two64. cbn. lia.
  - unfold MinInt64, MaxInt64, two63. cbn. lia.
Defined.

Lemma handleRead_store_status_ignored_example :
  handleRead sampleMatchString sampleMetricString sampleMarshal (samplePost 500)
    sampleDecode sampleSnappyDecode sampleSnappyEncode
    (sampleUnmarshalRead [exampleQuery]) sampleMarshalResponse sampleWrite
    "http://localhost:4200/_sql" ("request", None) =
  Done [EvSetHeader "Content-Type" "application/x-protobuf"; EvWrite "response"].
Proof.
  eapply (handleRead_store_status_ignored sampleMatchString sampleMetricString
            sampleMarshal (samplePost 500) sampleDecode sampleSnappyDecode
            sampleSnappyEncode (sampleUnmarshalRead [exampleQuery])
            sampleMarshalResponse sampleWrite).
  - reflexivity.
  - reflexivity.
  - vm_compute. reflexivity.
  - reflexivity.
  - reflexivity.
  - cbn. discriminate.
  - reflexivity.
Defined.

Lemma queryToSQL_without_regex_example :
  queryToSQL sampleMatchString equalityQuery =
    queryToSQL rejectingMatchString equalityQuery /\
  snd (queryToSQL sampleMatchString equalityQuery) = None.
Proof.
  apply (queryToSQL_without_regex sampleMatchString rejectingMatchString equalityQuery).
  repeat constructor.
Defined.

(** C8, against the claim: the value [a)(b] of a regex matcher is not a
    valid pattern, the engine rejects it, and yet [queryToSQL] translates
    the query without an error, because the pattern it compiles is the
    anchored one. *)
Lemma queryToSQL_accepts_stray_paren :
  Exists (fun m => isRegexType (LabelMatcher.Type_ m) = true /\
                   snd (parenMatchString (LabelMatcher.Value m) EmptyString) <> None)
         (Query.Matchers strayParenQuery) /\
  queryToSQL parenMatchString strayParenQuery =
  ("SELECT * from metrics WHERE (" +:+ DQ +:+ "ljob" +:+ DQ
     +:+ " ~ '^(?:a)(b)$') AND (timestamp <= 2000) AND (timestamp >= 1000)"
     +:+ " ORDER BY timestamp", None).
Proof.
  split.
  - apply Exists_cons_hd. split; [reflexivity|]. cbv. discriminate.
  - vm_compute. reflexivity.
Qed.
